(** * Feature queue API and progress webhook: a shallow embedding

    [Routes] embeds the handlers of [api/routes.py] that own the priority
    queue (list, next, skip) over a table keyed by the primary key [id].
    [Progress] embeds [progress.py]: the cache file, the calls to the
    Feature API and to the webhook, and [send_progress_webhook]. *)

From Stdlib Require Import ZArith Lia.
From Stdlib Require Floats.SpecFloat.
From stdpp Require Import base decidable option list sorting gmap strings pretty.

Local Open Scope string_scope.
Local Open Scope list_scope.
Local Open Scope Z_scope.

(** ** api/routes.py *)
Module Routes.

(** A row of the [features] table without its primary key; the table maps
    [id] to the remaining columns. *)
Record Feature := mkFeature {
  priority : Z;
  category : string;
  name : string;
  description : string;
  steps : list string;
  passes : bool
}.

Abbreviation Table := (gmap Z Feature).

(** [FeatureResponse] *)
Record FeatureResponse := mkFeatureResponse {
  r_id : Z;
  r_priority : Z;
  r_category : string;
  r_name : string;
  r_description : string;
  r_steps : list string;
  r_passes : bool
}.

(** Modelled from the spec: [Feature.to_dict] lives in [api/database.py],
    which is not part of the sources at hand; the fields are the ones
    [FeatureResponse] declares. *)
Definition to_dict (row : Z * Feature) : FeatureResponse :=
  let (id, f) := row in
  mkFeatureResponse id (priority f) (category f) (name f) (description f)
                    (steps f) (passes f).

(** [FeatureListResponse] *)
Record FeatureListResponse := mkFeatureListResponse {
  features : list FeatureResponse;
  total : Z;
  limit : Z;
  offset : Z
}.

(** [SkipResponse] *)
Record SkipResponse := mkSkipResponse {
  s_id : Z;
  s_name : string;
  old_priority : Z;
  new_priority : Z;
  message : string
}.

(** What a handler can raise: an [HTTPException], or the framework's
    rejection (status 422) of a parameter outside its declared bounds. *)
Inductive Failure :=
  | HTTPException (status_code : Z) (detail : string)
  | RequestValidationError.

Inductive Result (A : Type) :=
  | Ok (a : A)
  | Raise (e : Failure).
Arguments Ok {A} a.
Arguments Raise {A} e.

(** [Query(default, ge=.., le=..)] for an integer parameter: the default
    when the caller sends nothing, a validation failure when the value
    breaks a bound. *)
Definition Query (default : Z) (ge le : option Z) (sent : option Z) : Result Z :=
  match sent with
  | None => Ok default
  | Some v =>
      if from_option (fun b => b <=? v) true ge
         && from_option (fun b => v <=? b) true le
      then Ok v else Raise RequestValidationError
  end.

(** *** Queries *)

Definition all_rows (db : Table) : list (Z * Feature) := map_to_list db.

(** [Feature.priority.asc(), Feature.id.asc()] *)
Definition priority_id_le (a b : Z * Feature) : Prop :=
  priority a.2 < priority b.2 \/ (priority a.2 = priority b.2 /\ a.1 <= b.1).

#[global] Instance priority_id_le_dec a b : Decision (priority_id_le a b).
Proof. unfold priority_id_le. apply _. Defined.

Definition order_by_priority_id (q : list (Z * Feature)) : list (Z * Feature) :=
  merge_sort priority_id_le q.

(** [.first()] *)
Definition first {A} (q : list A) : option A := head q.

(** [db.query(Feature.priority).order_by(Feature.priority.desc()).first()] *)
Definition query_max_priority (db : Table) : option Z :=
  first (merge_sort (flip Z.le) ((fun row => priority row.2) <$> all_rows db)).

(** [order_by(func.random())]: the database draws the order; the draws are
    an explicit argument, each one picking the next row among those left. *)
Fixpoint order_by_random {A} (draws : list nat) (q : list A) : list A :=
  match draws with
  | [] => q
  | d :: draws' =>
      let i := (d mod length q)%nat in
      match q !! i with
      | Some x => x :: order_by_random draws' (delete i q)
      | None => q
      end
  end.

(** *** Handlers *)

(** [GET /features] *)
Definition list_features (limit offset : option Z) (passes_eq : option bool)
    (category_eq : option string) (random : bool) (draws : list nat)
    (db : Table) : Result FeatureListResponse :=
  match Query 5 (Some 1) (Some 5) limit with
  | Raise e => Raise e
  | Ok limit =>
  match Query 0 (Some 0) None offset with
  | Raise e => Raise e
  | Ok offset =>
      let query := all_rows db in
      let query :=
        match passes_eq with
        | Some p => filter (fun row => passes row.2 = p) query
        | None => query
        end in
      let query :=
        match category_eq with
        | Some c => filter (fun row => category row.2 = c) query
        | None => query
        end in
      let total := Z.of_nat (length query) in
      let features :=
        if random then take (Z.to_nat limit) (order_by_random draws query)
        else take (Z.to_nat limit)
               (drop (Z.to_nat offset) (order_by_priority_id query)) in
      Ok (mkFeatureListResponse (to_dict <$> features) total limit offset)
  end end.

(** [GET /features/next] *)
Definition get_next_feature (db : Table) : Result FeatureResponse :=
  let feature :=
    first (order_by_priority_id
             (filter (fun row => passes row.2 = false) (all_rows db))) in
  match feature with
  | None =>
      Raise (HTTPException 404 "All features are passing! No more work to do.")
  | Some feature => Ok (to_dict feature)
  end.

(** [GET /features/all-passing]: the rows, before the handler trims them to
    [id], [category] and [name]. *)
Definition get_all_passing_features (db : Table) : list (Z * Feature) :=
  order_by_priority_id (filter (fun row => passes row.2 = true) (all_rows db)).

Definition set_priority (p : Z) (f : Feature) : Feature :=
  mkFeature p (category f) (name f) (description f) (steps f) (passes f).

(** [POST /features/{feature_id}/skip]: the table after the request and what
    the handler returns or raises; nothing is committed on a raise. *)
Definition skip_feature (feature_id : Z) (db : Table)
    : Table * Result SkipResponse :=
  match db !! feature_id with
  | None => (db, Raise (HTTPException 404 "Feature not found"))
  | Some feature =>
      if passes feature
      then (db, Raise (HTTPException 400
                         "Cannot skip a feature that is already passing"))
      else
        let old_priority := priority feature in
        let max_priority := query_max_priority db in
        let new_priority :=
          match max_priority with Some m => m + 1 | None => 1 end in
        let feature := set_priority new_priority feature in
        (<[feature_id := feature]> db,
         Ok (mkSkipResponse feature_id (name feature) old_priority new_priority
               ("Feature '" +:+ name feature +:+ "' moved to end of queue")))
  end.

End Routes.

(** ** progress.py *)
Module Progress.

(** One entry of the [features] array that [/features/all-passing] answers
    with; the engine reads [name] and [category] with a fallback, so both
    may be absent. *)
Record PassingFeature := mkPassingFeature {
  pf_id : Z;
  pf_category : option string;
  pf_name : option string
}.

(** What [PROGRESS_CACHE_FILE] holds: either text from which the engine's
    [try] block cannot build a count and a set of ids (not JSON, not an
    object, ids that are no list), or an object with an optional integer
    [count] and an optional list [passing_ids]. *)
Inductive CacheText :=
  | Unreadable
  | CacheData (count : option Z) (passing_ids : option (list Z)).

(** The object posted to the webhook. [percentage] is in tenths of a
    percent; the timestamp is the clock reading with the suffix the engine
    adds. *)
Record Payload := mkPayload {
  event : string;
  passing : Z;
  total : Z;
  percentage : Z;
  previous_passing : Z;
  tests_completed_this_session : Z;
  completed_tests : list string;
  project : string;
  timestamp : string
}.

(** Lines the module prints. *)
Inductive Line :=
  | ApiUnavailableInCount (e : string)
  | ApiErrorGettingFeatures (e : string)
  | WebhookNotificationFailed (e : string)
  | ProgressLine (passing total : Z)
  | NoFeaturesYet.

(** What the module can change: the cache file of the project directory
    ([None] while it does not exist), the requests sent to the webhook (url
    and body, one [json.dumps] array each, in order), and the output. *)
Record World := mkWorld {
  cache_file : option CacheText;
  requests : list (string * list Payload);
  stdout : list Line
}.

(** What the module only reads during one call. A failing HTTP call is the
    text of the exception it raises. *)
Record Env := mkEnv {
  WEBHOOK_URL : option string;
  api_stats : string + (Z * Z);
  api_all_passing : string + list PassingFeature;
  webhook_error : option string;
  utcnow_isoformat : string
}.

Definition print (l : Line) (w : World) : World :=
  mkWorld (cache_file w) (requests w) (stdout w ++ [l]).

Definition write_text (c : CacheText) (w : World) : World :=
  mkWorld (Some c) (requests w) (stdout w).

(** [urllib.request.urlopen(req, timeout=5)] inside its [try]: the request
    goes out once; a failure is printed and nothing else. *)
Definition urlopen_webhook (env : Env) (url : string) (body : list Payload)
    (w : World) : World :=
  let w := mkWorld (cache_file w) (requests w ++ [(url, body)]) (stdout w) in
  match webhook_error env with
  | Some e => print (WebhookNotificationFailed e) w
  | None => w
  end.

(** [count_passing_tests] *)
Definition count_passing_tests (env : Env) (w : World) : Z * Z * World :=
  match api_stats env with
  | inr (passing, total) => (passing, total, w)
  | inl e => (0, 0, print (ApiUnavailableInCount e) w)
  end.

(** Reading the cache: [previous] and [previous_passing_ids] after the
    [if cache_file.exists()] block. *)
Definition read_cache (file : option CacheText) : Z * gset Z :=
  match file with
  | None => (0, ∅)
  | Some Unreadable => (0, ∅)
  | Some (CacheData count passing_ids) =>
      (default 0 count, list_to_set (default [] passing_ids))
  end.

(** Half-to-even rounding of [n / d] for [d > 0]. *)
Definition round_half_even (n d : Z) : Z :=
  let q := n / d in
  let r := n mod d in
  if 2 * r <? d then q
  else if d <? 2 * r then q + 1
  else if Z.even q then q else q + 1.

(** An integer as a [float]: a binary64 number, exact below 2^53. *)
Definition float (n : Z) : SpecFloat.spec_float :=
  SpecFloat.binary_normalize 53 1024 n 0 false.

(** [round(x, 1)] of a float, in tenths: the exact value of [x] times ten,
    rounded half to even; the float Python returns is the one nearest to
    that many tenths. *)
Definition round_1 (x : SpecFloat.spec_float) : Z :=
  match x with
  | SpecFloat.S754_finite s m e =>
      let n := 10 * (if s then Z.neg m else Z.pos m) in
      if 0 <=? e then n * 2 ^ e else round_half_even n (2 ^ (- e))
  | _ => 0
  end.

(** [round((passing / total) * 100, 1) if total > 0 else 0], in tenths: the
    quotient and the product are binary64 operations, for counts below
    2^53. *)
Definition percentage_of (passing total : Z) : Z :=
  if 0 <? total
  then round_1 (SpecFloat.SFmul 53 1024
                  (SpecFloat.SFdiv 53 1024 (float passing) (float total))
                  (float 100))
  else 0.

(** The text a newly passing feature is listed under. *)
Definition describe (feature : PassingFeature) : string :=
  let feature_id := pf_id feature in
  let name := default ("Feature #" +:+ pretty feature_id) (pf_name feature) in
  let category := default EmptyString (pf_category feature) in
  if bool_decide (category = EmptyString) then name
  else category +:+ " " +:+ name.

(** One turn of the loop over the fetched features, on
    [(current_passing_ids, completed_tests)]. *)
Definition visit (is_old_cache_format : bool) (previous_passing_ids : gset Z)
    (acc : list Z * list string) (feature : PassingFeature)
    : list Z * list string :=
  let '(current_passing_ids, completed_tests) := acc in
  let feature_id := pf_id feature in
  let current_passing_ids := current_passing_ids ++ [feature_id] in
  if negb is_old_cache_format
     && negb (bool_decide (feature_id ∈ previous_passing_ids))
  then (current_passing_ids, completed_tests ++ [describe feature])
  else (current_passing_ids, completed_tests).

(** [send_progress_webhook] *)
Definition send_progress_webhook (env : Env) (passing total : Z)
    (project_dir_name : string) (w : World) : World :=
  match WEBHOOK_URL env with
  | None => w
  | Some url =>
  if bool_decide (url = EmptyString) then w else
    let '(previous, previous_passing_ids) := read_cache (cache_file w) in
    if bool_decide (passing > previous) then
      let is_old_cache_format :=
        bool_decide (size previous_passing_ids = 0%nat)
        && bool_decide (previous > 0) in
      let '(current_passing_ids, completed_tests, w) :=
        match api_all_passing env with
        | inr features =>
            let '(ids, tests) :=
              foldl (visit is_old_cache_format previous_passing_ids)
                    ([], []) features in
            (ids, tests, w)
        | inl e => ([], [], print (ApiErrorGettingFeatures e) w)
        end in
      let payload :=
        mkPayload "test_progress" passing total (percentage_of passing total)
                  previous (passing - previous) completed_tests
                  project_dir_name (utcnow_isoformat env +:+ "Z") in
      let w := urlopen_webhook env url [payload] w in
      write_text (CacheData (Some passing) (Some current_passing_ids)) w
    else
      match cache_file w with
      | Some _ => w
      | None =>
          let current_passing_ids :=
            match api_all_passing env with
            | inr features => pf_id <$> features
            | inl _ => []
            end in
          write_text (CacheData (Some passing) (Some current_passing_ids)) w
      end
  end.

(** [print_progress_summary] *)
Definition print_progress_summary (env : Env) (project_dir_name : string)
    (w : World) : World :=
  let '(passing, total, w) := count_passing_tests env w in
  if bool_decide (total > 0) then
    send_progress_webhook env passing total project_dir_name
      (print (ProgressLine passing total) w)
  else print NoFeaturesYet w.

End Progress.

(** ** api/routes.py: reading one feature, statistics, creation, status
    update and deletion *)
Module Handlers.
Import Routes.

(** [FeatureCreate] *)
Record FeatureCreate := mkFeatureCreate {
  c_category : string;
  c_name : string;
  c_description : string;
  c_steps : list string
}.

(** A byte that continues a character of a UTF-8 text. *)
Definition continues (a : Ascii.ascii) : bool :=
  let n := Ascii.nat_of_ascii a in (128 <=? n)%nat && (n <? 192)%nat.

(** [len] of a [str]: the number of its characters. The text is held as
    its UTF-8 bytes, and every character has one byte that does not
    continue another. *)
Definition len (s : string) : nat :=
  length (filter (fun a => continues a = false)
                 (String.list_ascii_of_string s)).

(** The [Field] bounds of [FeatureCreate]. *)
Definition valid_FeatureCreate (feature : FeatureCreate) : bool :=
  (1 <=? len (c_category feature))%nat
  && (len (c_category feature) <=? 100)%nat
  && (1 <=? len (c_name feature))%nat
  && (len (c_name feature) <=? 255)%nat
  && (1 <=? len (c_description feature))%nat
  && (1 <=? length (c_steps feature))%nat.

(** [FeatureBulkCreate]: at least one item, each one a valid
    [FeatureCreate]. *)
Definition valid_FeatureBulkCreate (features : list FeatureCreate) : bool :=
  (1 <=? length features)%nat && forallb valid_FeatureCreate features.

(** [StatsResponse]; [st_percentage] is in tenths of a percent. *)
Record StatsResponse := mkStatsResponse {
  st_passing : Z;
  st_total : Z;
  st_percentage : Z
}.

(** [PassingFeatureSummary] *)
Record PassingFeatureSummary := mkPassingFeatureSummary {
  ps_id : Z;
  ps_category : string;
  ps_name : string
}.

(** [AllPassingResponse] *)
Record AllPassingResponse := mkAllPassingResponse {
  ap_features : list PassingFeatureSummary;
  ap_count : Z
}.

(** [GET /features/stats] *)
Definition get_stats (db : Table) : StatsResponse :=
  let total := Z.of_nat (length (all_rows db)) in
  let passing :=
    Z.of_nat (length (filter (fun row => passes row.2 = true) (all_rows db))) in
  let percentage := Progress.percentage_of passing total in
  mkStatsResponse passing total percentage.

(** [GET /features/all-passing] *)
Definition get_all_passing (db : Table) : AllPassingResponse :=
  let features := get_all_passing_features db in
  mkAllPassingResponse
    ((fun row => mkPassingFeatureSummary row.1 (category row.2) (name row.2))
       <$> features)
    (Z.of_nat (length features)).

(** [GET /features/{feature_id}] *)
Definition get_feature (feature_id : Z) (db : Table) : Result FeatureResponse :=
  match db !! feature_id with
  | None => Raise (HTTPException 404 "Feature not found")
  | Some feature => Ok (to_dict (feature_id, feature))
  end.

Definition next_priority_of (max_priority : option Z) : Z :=
  match max_priority with Some m => m + 1 | None => 1 end.

(** [POST /features]. The primary key the database gives the new row is
    the argument [new_id]; a body outside the bounds of [FeatureCreate] is
    refused before the handler runs. *)
Definition create_feature (new_id : Z) (feature : FeatureCreate) (db : Table)
    : Table * Result FeatureResponse :=
  if valid_FeatureCreate feature then
    let max_priority := query_max_priority db in
    let next_priority := next_priority_of max_priority in
    let db_feature :=
      mkFeature next_priority (c_category feature) (c_name feature)
                (c_description feature) (c_steps feature) false in
    (<[new_id := db_feature]> db, Ok (to_dict (new_id, db_feature)))
  else (db, Raise RequestValidationError).

(** One turn of the loop of [create_features_bulk] on the session and
    [created_count]; [item] is the index, the key the database gives the
    row, and the feature. *)
Definition add_bulk_item (start_priority : Z) (acc : Table * Z)
    (item : nat * (Z * FeatureCreate)) : Table * Z :=
  let '(db, created_count) := acc in
  let '(i, (new_id, feature)) := item in
  let db_feature :=
    mkFeature (start_priority + Z.of_nat i) (c_category feature)
              (c_name feature) (c_description feature) (c_steps feature)
              false in
  (<[new_id := db_feature]> db, created_count + 1).

(** [POST /features/bulk]; [new_ids] are the primary keys the database
    gives the new rows, one for each feature, in the order of the array. *)
Definition create_features_bulk (new_ids : list Z)
    (features : list FeatureCreate) (db : Table) : Table * Result Z :=
  if valid_FeatureBulkCreate features then
    let max_priority := query_max_priority db in
    let start_priority := next_priority_of max_priority in
    let '(db, created_count) :=
      foldl (add_bulk_item start_priority) (db, 0)
            (imap (fun i item => (i, item)) (zip new_ids features)) in
    (db, Ok created_count)
  else (db, Raise RequestValidationError).

Definition set_passes (p : bool) (f : Feature) : Feature :=
  mkFeature (priority f) (category f) (name f) (description f) (steps f) p.

(** [PATCH /features/{feature_id}] with body [{passes: ...}] *)
Definition update_feature (feature_id : Z) (update_passes : bool) (db : Table)
    : Table * Result FeatureResponse :=
  match db !! feature_id with
  | None => (db, Raise (HTTPException 404 "Feature not found"))
  | Some feature =>
      let feature := set_passes update_passes feature in
      (<[feature_id := feature]> db, Ok (to_dict (feature_id, feature)))
  end.

(** [DELETE /features/{feature_id}] *)
Definition delete_feature (feature_id : Z) (db : Table)
    : Table * Result unit :=
  match db !! feature_id with
  | None => (db, Raise (HTTPException 404 "Feature not found"))
  | Some feature => (delete feature_id db, Ok ())
  end.

End Handlers.

(** ** Vocabulary of the statements, and sample data *)
Module Samples.
Import Routes Progress.

Definition feature (p : Z) (n : string) (b : bool) : Feature :=
  mkFeature p "auth" n ("As a user I can " +:+ n) ["open the page"; n] b.

(** Four features; 1 passes, 3 and 4 share the smallest pending priority. *)
Definition table4 : gmap Z Feature :=
  <[1 := feature 1 "log in" true]>
    (<[2 := feature 3 "log out" false]>
       (<[3 := feature 2 "reset" false]>
          (<[4 := feature 2 "sign up" false]> ∅))).

(** Seven pending features with priorities 1 to 7. *)
Definition table7 : gmap Z Feature :=
  list_to_map ((fun i => (i, feature i "step" false)) <$> [1; 2; 3; 4; 5; 6; 7]).

Definition summary (i : Z) (n : string) : PassingFeature :=
  mkPassingFeature i (Some "auth") (Some n).

Definition env_of (url : option string) (passing total : Z)
    (all_passing : string + list PassingFeature) (err : option string) : Env :=
  mkEnv url (inr (passing, total)) all_passing err "2024-05-01T10:00:00".

Definition hook : option string := Some "http://localhost:5678/webhook/progress".

Definition world_of (file : option CacheText) : World := mkWorld file [] [].

End Samples.

(** The engine's set-up and inputs, as the statements name them. *)
Module Terms.
Import Progress.

(** [if not WEBHOOK_URL] does not fire. *)
Definition webhook_configured (env : Env) : bool :=
  match WEBHOOK_URL env with
  | Some url => negb (bool_decide (url = EmptyString))
  | None => false
  end.

(** The features the engine has seen when its [try] block is left. *)
Definition fetched (env : Env) : list PassingFeature :=
  match api_all_passing env with
  | inr features => features
  | inl _ => []
  end.

(** [current_passing_ids] when the cache is written. *)
Definition current_ids (env : Env) : list Z := pf_id <$> fetched env.

(** The ids in the current passing list and not in the snapshot's. *)
Definition new_ids (snapshot_ids current : list Z) : gset Z :=
  list_to_set current ∖ list_to_set snapshot_ids.

(** The same call with another outcome of the webhook request. *)
Definition with_webhook_error (err : option string) (env : Env) : Env :=
  mkEnv (WEBHOOK_URL env) (api_stats env) (api_all_passing env) err
        (utcnow_isoformat env).

(** A request went out during the call. *)
Definition delivery_attempted (before after : World) : Prop :=
  requests after <> requests before.

(** [is_old_cache_format] as the engine computes it from the cache. *)
Definition is_old_cache_format (file : option CacheText) : bool :=
  bool_decide (size (read_cache file).2 = 0%nat)
  && bool_decide ((read_cache file).1 > 0).

(** The payload of a cycle that found an increase. *)
Definition payload_of (env : Env) (passing total : Z) (project : string)
    (file : option CacheText) : Payload :=
  mkPayload "test_progress" passing total (percentage_of passing total)
    (read_cache file).1 (passing - (read_cache file).1)
    (if is_old_cache_format file then []
     else describe <$> filter (fun f => pf_id f ∉ (read_cache file).2) (fetched env))
    project (utcnow_isoformat env +:+ "Z").

End Terms.

(** The API and the engine put together, and more sample data. *)
Module Wiring.
Import Routes Progress Handlers.

(** What the engine reads from [/features/all-passing]. *)
Definition as_passing_feature (s : PassingFeatureSummary) : PassingFeature :=
  mkPassingFeature (ps_id s) (Some (ps_category s)) (Some (ps_name s)).

(** The calls of one engine run, all answered by the API from the table
    [db]. *)
Definition served_by (db : gmap Z Feature) (url : option string)
    (err : option string) (now : string) : Env :=
  mkEnv url
        (inr (st_passing (get_stats db), st_total (get_stats db)))
        (inr (as_passing_feature <$> ap_features (get_all_passing db)))
        err now.

(** The ids of the passing features of a table. *)
Definition passing_ids_of (db : gmap Z Feature) : list Z :=
  ps_id <$> ap_features (get_all_passing db).

(** The snapshot the engine writes from a table. *)
Definition snapshot_of (db : gmap Z Feature) : CacheText :=
  CacheData (Some (st_passing (get_stats db))) (Some (passing_ids_of db)).

Definition pending (db : gmap Z Feature) (id : Z) : Prop :=
  exists f, db !! id = Some f /\ passes f = false.

Definition new_feature (n : string) : FeatureCreate :=
  mkFeatureCreate "auth" n ("As a user I can " +:+ n) ["open the page"; n].

Definition no_more_work : Failure :=
  HTTPException 404 "All features are passing! No more work to do.".

(** A feature passes the filters of a list request. *)
Definition matches (passes_eq : option bool) (category_eq : option string)
    (f : Feature) : Prop :=
  from_option (fun p => passes f = p) True passes_eq /\
  from_option (fun c => category f = c) True category_eq.

#[global] Instance matches_dec passes_eq category_eq f :
  Decision (matches passes_eq category_eq f).
Proof.
  unfold matches. destruct passes_eq, category_eq; simpl; apply _.
Defined.

(** The features on the page of an answer, none when the request is
    refused. *)
Definition listed (r : Result FeatureListResponse) : list FeatureResponse :=
  match r with Ok page => features page | Raise _ => [] end.

(** The order of the queue, read on answers. *)
Definition by_priority_id (a b : FeatureResponse) : Prop :=
  r_priority a < r_priority b \/
  (r_priority a = r_priority b /\ r_id a <= r_id b).

(** One [POST /features] after another, for the features of an array under
    the ids of a list. *)
Definition create_one_by_one (new_ids : list Z) (features : list FeatureCreate)
    (db : gmap Z Feature) : gmap Z Feature :=
  foldl (fun db item => (create_feature item.1 item.2 db).1) db
        (zip new_ids features).

(** The row a creation stores. *)
Definition created_row (priority : Z) (c : FeatureCreate) : Feature :=
  mkFeature priority (c_category c) (c_name c) (c_description c) (c_steps c)
            false.

Definition not_found : Failure := HTTPException 404 "Feature not found".

End Wiring.

(** ** Properties of the queue handlers *)
Module RoutesSpec.
Import Routes Samples.

Section Ordering.
Context {A : Type} (R : relation A) `{!forall x y, Decision (R x y)}.
Context `{!Transitive R, !Total R}.

(** The first row of an ordered query is a row of the query that comes
    before every other one; there is none only when the query is empty. *)
Lemma first_merge_sort (q : list A) :
  match first (merge_sort R q) with
  | Some x => x ∈ q /\ forall y, y ∈ q -> R x y
  | None => q = []
  end.
Proof.
  pose proof (merge_sort_Permutation R q) as Hperm.
  pose proof (StronglySorted_merge_sort R q) as Hsorted.
  unfold first. destruct (merge_sort R q) as [|x rest]; simpl.
  - by apply Permutation_nil in Hperm.
  - split.
    + rewrite <- Hperm. left.
    + intros y Hy. rewrite <- Hperm in Hy.
      apply elem_of_cons in Hy as [->|Hy].
      * by destruct (base.total R x x).
      * apply StronglySorted_inv in Hsorted as [_ Hall].
        rewrite Forall_forall in Hall. by apply Hall.
Qed.
End Ordering.

#[local] Instance priority_id_le_trans : Transitive priority_id_le.
Proof. intros [i f] [j g] [k h]. unfold priority_id_le. simpl. lia. Qed.

#[local] Instance priority_id_le_total : Total priority_id_le.
Proof. intros [i f] [j g]. unfold priority_id_le. simpl. lia. Qed.

#[local] Instance flip_le_trans : Transitive (flip Z.le).
Proof. intros x y z. unfold flip. lia. Qed.

#[local] Instance flip_le_total : Total (flip Z.le).
Proof. intros x y. unfold flip. lia. Qed.

Lemma elem_of_all_rows (db : gmap Z Feature) id f :
  (id, f) ∈ all_rows db <-> db !! id = Some f.
Proof. unfold all_rows. apply elem_of_map_to_list. Qed.

(** The maximum-priority query answers with the largest priority in the
    table, and with nothing only on the empty table. *)
Lemma query_max_priority_spec (db : gmap Z Feature) :
  match query_max_priority db with
  | Some m =>
      (exists id f, db !! id = Some f /\ priority f = m) /\
      (forall id f, db !! id = Some f -> priority f <= m)
  | None => db = ∅
  end.
Proof.
  unfold query_max_priority.
  pose proof (first_merge_sort (flip Z.le)
                ((fun row => priority row.2) <$> all_rows db)) as H.
  destruct (first _) as [m|].
  - destruct H as [Hin Hmax]. split.
    + apply list_elem_of_fmap in Hin as ([id f] & -> & Hrow).
      exists id, f. by rewrite <- elem_of_all_rows.
    + intros id f Hf. apply (Hmax (priority f)).
      apply list_elem_of_fmap. exists (id, f). by rewrite elem_of_all_rows.
  - apply fmap_nil_inv in H. unfold all_rows in H.
    by apply map_to_list_empty_iff.
Qed.

(** C8. [get_next_feature] answers with a pending feature whose
    [(priority, id)] is lexicographically least among the pending ones, and
    raises the 404 exactly when the table holds no pending feature. *)
Theorem get_next_feature_least_pending (db : gmap Z Feature) :
  match get_next_feature db with
  | Ok r =>
      exists f, db !! r_id r = Some f /\ r = to_dict (r_id r, f) /\
        passes f = false /\
        forall id' f', db !! id' = Some f' -> passes f' = false ->
          priority f < priority f' \/
          (priority f = priority f' /\ r_id r <= id')
  | Raise e =>
      e = HTTPException 404 "All features are passing! No more work to do."
  end /\
  ((exists e, get_next_feature db = Raise e) <->
   ~ exists id f, db !! id = Some f /\ passes f = false).
Proof.
  unfold get_next_feature.
  pose proof (first_merge_sort priority_id_le
    (filter (fun row => passes row.2 = false) (all_rows db))) as H.
  unfold order_by_priority_id.
  destruct (first _) as [[id f]|].
  - destruct H as [Hin Hmin].
    apply list_elem_of_filter in Hin as [Hpend Hrow]. simpl in Hpend.
    apply elem_of_all_rows in Hrow.
    split.
    + exists f. simpl. repeat split; try done.
      intros id' f' Hf' Hpend'.
      apply (Hmin (id', f')). apply list_elem_of_filter. split; [done|].
      by apply elem_of_all_rows.
    + split.
      * intros [e He]. discriminate.
      * intros Hnone. exfalso. apply Hnone. by exists id, f.
  - split; [done|]. split.
    + intros _ (id & f & Hf & Hpend).
      assert ((id, f) ∈ filter (fun row => passes row.2 = false) (all_rows db))
        as Hin.
      { apply list_elem_of_filter. split; [done|]. by apply elem_of_all_rows. }
      rewrite H in Hin. by apply elem_of_nil in Hin.
    + intros _. by eexists.
Qed.

(** C7. Skipping a passing feature raises the 400 and leaves the whole
    table as it was. *)
Theorem skip_feature_passing_rejected (db : gmap Z Feature) (id : Z) (f : Feature) :
  db !! id = Some f -> passes f = true ->
  skip_feature id db =
    (db, Raise (HTTPException 400
                  "Cannot skip a feature that is already passing")).
Proof. intros Hf Hp. unfold skip_feature. by rewrite Hf, Hp. Qed.

Lemma skip_feature_passing_rejected_witness :
  table4 !! 1 = Some (feature 1 "log in" true) /\
  skip_feature 1 table4 =
    (table4, Raise (HTTPException 400
                      "Cannot skip a feature that is already passing")).
Proof.
  split; [reflexivity|].
  apply (skip_feature_passing_rejected table4 1 (feature 1 "log in" true));
    reflexivity.
Defined.

(** C6. Skipping a pending feature gives it the largest priority of the
    table plus one, which exceeds its old priority; its other columns and
    every other row stay as they were. *)
Theorem skip_feature_pending_moves_last (db : gmap Z Feature) (id : Z) (f : Feature) :
  db !! id = Some f -> passes f = false ->
  exists old_max,
    (exists id' g, db !! id' = Some g /\ priority g = old_max) /\
    (forall id' g, db !! id' = Some g -> priority g <= old_max) /\
    priority f < old_max + 1 /\
    exists resp,
      (skip_feature id db).2 = Ok resp /\
      s_id resp = id /\
      old_priority resp = priority f /\
      new_priority resp = old_max + 1 /\
      (skip_feature id db).1 !! id =
        Some (mkFeature (old_max + 1) (category f) (name f) (description f)
                        (steps f) (passes f)) /\
      forall id', id' <> id -> (skip_feature id db).1 !! id' = db !! id'.
Proof.
  intros Hf Hp. unfold skip_feature. rewrite Hf, Hp.
  pose proof (query_max_priority_spec db) as Hmax.
  destruct (query_max_priority db) as [m|].
  - destruct Hmax as [Hreach Hbound]. exists m.
    repeat split; try done.
    + specialize (Hbound id f Hf). lia.
    + eexists. simpl. repeat split.
      * rewrite lookup_insert_eq. unfold set_priority. by rewrite Hp.
      * intros id' Hne. by rewrite lookup_insert_ne.
  - subst db. by rewrite lookup_empty in Hf.
Qed.

Lemma skip_feature_pending_moves_last_witness :
  table4 !! 3 = Some (feature 2 "reset" false) /\
  exists old_max,
    (exists id' g, table4 !! id' = Some g /\ priority g = old_max) /\
    (forall id' g, table4 !! id' = Some g -> priority g <= old_max) /\
    priority (feature 2 "reset" false) < old_max + 1 /\
    exists resp,
      (skip_feature 3 table4).2 = Ok resp /\
      s_id resp = 3 /\
      old_priority resp = priority (feature 2 "reset" false) /\
      new_priority resp = old_max + 1 /\
      (skip_feature 3 table4).1 !! 3 =
        Some (mkFeature (old_max + 1) "auth" "reset"
                ("As a user I can " +:+ "reset") ["open the page"; "reset"]
                false) /\
      forall id', id' <> 3 -> (skip_feature 3 table4).1 !! id' = table4 !! id'.
Proof.
  split; [reflexivity|].
  apply (skip_feature_pending_moves_last table4 3 (feature 2 "reset" false));
    reflexivity.
Defined.

(** On [table4] the skipped feature 3 moves from priority 2 to 4. *)
Example skip_feature_table4 :
  (skip_feature 3 table4).2 =
    Ok (mkSkipResponse 3 "reset" 2 4 "Feature 'reset' moved to end of queue").
Proof. reflexivity. Qed.

(** What [Query] lets through: the value sent (or the default) within
    the declared bounds; what it refuses: a value sent outside them. *)
Lemma Query_spec (default : Z) (ge le : option Z) (sent : option Z) :
  let within v :=
    from_option (fun b => b <= v) True ge /\
    from_option (fun b => v <= b) True le in
  match Query default ge le sent with
  | Ok v => (sent = None /\ v = default) \/ (sent = Some v /\ within v)
  | Raise e =>
      e = RequestValidationError /\ exists v, sent = Some v /\ ~ within v
  end.
Proof.
  unfold Query. destruct sent as [v|]; simpl; [|by left].
  destruct ge as [g|], le as [l|]; simpl;
    repeat match goal with
           | |- context [?a <=? ?b] => destruct (Z.leb_spec a b); simpl
           end;
    try (right; split; [done|]; simpl; lia);
    try (right; done);
    (split; [done|]; exists v; split; [done|]; simpl; lia).
Qed.

(** A random order is a reordering of the query. *)
Lemma order_by_random_Permutation {A} (draws : list nat) (q : list A) :
  order_by_random draws q ≡ₚ q.
Proof.
  revert q. induction draws as [|d draws IH]; intros q; simpl; [done|].
  destruct (q !! (d mod length q)%nat) as [x|] eqn:Hx; [|done].
  rewrite IH. symmetry. by apply delete_Permutation.
Qed.

(** A limit of 10 is refused: no page comes back, so the limit is not cut
    down to 5. *)
Lemma list_features_limit_10_refused :
  list_features (Some 10) None None None false [] table7
    = Raise RequestValidationError /\
  ~ exists page,
      list_features (Some 10) None None None false [] table7 = Ok page /\
      (length (features page) <= 5)%nat.
Proof.
  split; [reflexivity|].
  intros (page & Hpage & _). discriminate Hpage.
Qed.

(** C5, as the handler has it. A request is either refused by parameter
    validation, which happens exactly when the limit sent is outside 1..5
    or the offset sent is negative, or answered with a page that echoes the
    limit sent (5 when none was) and holds at most that many features,
    hence at most 5. *)
Theorem list_features_page_bound (limit offset : option Z)
    (passes_eq : option bool) (category_eq : option string) (random : bool)
    (draws : list nat) (db : gmap Z Feature) :
  match list_features limit offset passes_eq category_eq random draws db with
  | Ok page =>
      Routes.limit page = default 5 limit /\
      1 <= Routes.limit page <= 5 /\
      0 <= default 0 offset /\
      Z.of_nat (length (features page)) <= Routes.limit page /\
      (length (features page) <= 5)%nat
  | Raise e =>
      e = RequestValidationError /\
      ((exists l, limit = Some l /\ ~ 1 <= l <= 5) \/
       (exists o, offset = Some o /\ o < 0))
  end.
Proof.
  unfold list_features.
  pose proof (Query_spec 5 (Some 1) (Some 5) limit) as Hl.
  destruct (Query 5 (Some 1) (Some 5) limit) as [l|e]; simpl in Hl.
  - assert (l = default 5 limit /\ 1 <= l <= 5) as [Hl' Hbound]
      by (destruct Hl as [[-> ->]|[-> ?]]; simpl; lia).
    pose proof (Query_spec 0 (Some 0) None offset) as Ho.
    destruct (Query 0 (Some 0) None offset) as [o|e]; simpl in Ho.
    + assert (0 <= default 0 offset) as Hoff
        by (destruct Ho as [[-> ->]|[-> ?]]; simpl; lia).
      cbn [features Routes.limit]. rewrite length_fmap.
      assert (forall q : list (Z * Feature),
                (length (take (Z.to_nat l) q) <= Z.to_nat l)%nat) as Htake
        by (intros q; rewrite length_take; lia).
      destruct random;
        match goal with |- context [take _ ?q] => specialize (Htake q) end;
        repeat split; lia.
    + destruct Ho as (-> & v & -> & Hv). split; [done|]. right.
      exists v. split; [done|lia].
  - destruct Hl as (-> & v & -> & Hv). split; [done|]. left.
    exists v. split; [done|lia].
Qed.

(** With a limit of 3 the page of [table7] holds features 1, 2 and 3. *)
Example list_features_table7_limit_3 :
  (fun r => match r with Ok page => r_id <$> features page | Raise _ => [] end)
    (list_features (Some 3) None None None false [] table7) = [1; 2; 3].
Proof. reflexivity. Qed.

End RoutesSpec.

(** ** Properties of the progress engine *)
Module ProgressSpec.
Import Progress Samples Terms.

(** The loop collects every id, and names the features the snapshot does
    not know unless the snapshot is in the old format. *)
Lemma foldl_visit (old : bool) (prev : gset Z) (fs : list PassingFeature)
    (ids : list Z) (tests : list string) :
  foldl (visit old prev) (ids, tests) fs =
    (ids ++ (pf_id <$> fs),
     tests ++ (if old then []
               else describe <$> filter (fun f => pf_id f ∉ prev) fs)).
Proof.
  revert ids tests. induction fs as [|f fs IH]; intros ids tests; simpl.
  - destruct old; by rewrite !app_nil_r.
  - destruct old; simpl.
    + rewrite IH. by rewrite <- app_assoc.
    + rewrite filter_cons. destruct (decide (pf_id f ∉ prev)) as [Hnew|Hold].
      * rewrite bool_decide_eq_false_2 by done. simpl.
        rewrite IH. by rewrite <- !app_assoc.
      * rewrite bool_decide_eq_true_2 by (by apply dec_stable). simpl.
        rewrite IH. by rewrite <- app_assoc.
Qed.

Lemma webhook_configured_url (env : Env) :
  webhook_configured env = true ->
  exists url, WEBHOOK_URL env = Some url /\ url <> EmptyString.
Proof.
  unfold webhook_configured. destruct (WEBHOOK_URL env) as [url|]; [|done].
  intros H. exists url. split; [done|].
  apply negb_true_iff, bool_decide_eq_false in H. done.
Qed.

(** A cycle that finds an increase: one request, then the cache write. *)
Lemma send_progress_webhook_increase (env : Env) (passing total : Z)
    (project : string) (w : World) (url : string) :
  WEBHOOK_URL env = Some url -> url <> EmptyString ->
  passing > (read_cache (cache_file w)).1 ->
  send_progress_webhook env passing total project w =
    mkWorld (Some (CacheData (Some passing) (Some (current_ids env))))
      (requests w ++ [(url, [payload_of env passing total project (cache_file w)])])
      (stdout w
       ++ match api_all_passing env with
          | inl e => [ApiErrorGettingFeatures e] | inr _ => [] end
       ++ match webhook_error env with
          | Some e => [WebhookNotificationFailed e] | None => [] end).
Proof.
  intros Hurl Hne Hgt. unfold send_progress_webhook.
  rewrite Hurl. rewrite bool_decide_eq_false_2 by done.
  unfold payload_of, is_old_cache_format, current_ids, fetched.
  destruct (read_cache (cache_file w)) as [previous prev_ids] eqn:Hread.
  simpl in *. rewrite bool_decide_eq_true_2 by done.
  destruct (api_all_passing env) as [e|fs].
  - unfold urlopen_webhook, write_text, print. simpl.
    destruct (bool_decide (size prev_ids = 0%nat) && bool_decide (previous > 0));
      destruct (webhook_error env); simpl;
      by rewrite <- ?app_assoc, ?app_nil_r.
  - rewrite foldl_visit. simpl.
    unfold urlopen_webhook, write_text, print. simpl.
    destruct (webhook_error env); simpl; by rewrite ?app_nil_r.
Qed.

(** A cycle that finds no increase sends nothing, and writes the cache only
    when there is none yet. *)
Lemma send_progress_webhook_no_increase (env : Env) (passing total : Z)
    (project : string) (w : World) :
  webhook_configured env = true ->
  passing <= (read_cache (cache_file w)).1 ->
  send_progress_webhook env passing total project w =
    match cache_file w with
    | Some _ => w
    | None =>
        mkWorld (Some (CacheData (Some passing) (Some (current_ids env))))
                (requests w) (stdout w)
    end.
Proof.
  intros Hconf Hle. apply webhook_configured_url in Hconf as (url & Hurl & Hne).
  unfold send_progress_webhook. rewrite Hurl.
  rewrite bool_decide_eq_false_2 by done.
  destruct (read_cache (cache_file w)) as [previous prev_ids] eqn:Hread.
  simpl in *. rewrite bool_decide_eq_false_2 by lia.
  destruct (cache_file w); [done|].
  unfold write_text, current_ids, fetched. by destruct (api_all_passing env).
Qed.

(** Without a webhook URL the call changes nothing. *)
Lemma send_progress_webhook_not_configured (env : Env) (passing total : Z)
    (project : string) (w : World) :
  webhook_configured env = false ->
  send_progress_webhook env passing total project w = w.
Proof.
  unfold webhook_configured, send_progress_webhook.
  destruct (WEBHOOK_URL env) as [url|]; [|done].
  intros H. apply negb_false_iff in H. by rewrite H.
Qed.

Lemma filter_ext_elem_of {A} (P Q : A -> Prop) `{!forall x, Decision (P x)}
    `{!forall x, Decision (Q x)} (l : list A) :
  (forall x, x ∈ l -> (P x <-> Q x)) -> filter P l = filter Q l.
Proof.
  induction l as [|x l IH]; intros Hext; [done|].
  rewrite !filter_cons.
  assert (P x <-> Q x) as Hx by (apply Hext; left).
  rewrite IH by (intros y Hy; apply Hext; by right).
  destruct (decide (P x)), (decide (Q x)); tauto.
Qed.

(** The cache is in the old format exactly when it names no id and counts
    more than zero. *)
Lemma is_old_cache_format_spec (count : option Z) (ids : option (list Z)) :
  is_old_cache_format (Some (CacheData count ids)) = true <->
  default [] ids = [] /\ default 0 count > 0.
Proof.
  unfold is_old_cache_format. simpl.
  rewrite andb_true_iff, !bool_decide_eq_true.
  rewrite size_empty_iff. split; intros [Hids Hcount]; split; try done.
  - destruct (default [] ids) as [|i rest]; [done|].
    exfalso. set_solver.
  - by rewrite Hids.
Qed.

(** With the fetch failing, a snapshot of two ids is replaced and a
    request still goes out. *)
Lemma fetch_failure_rewrites_snapshot :
  let env := env_of hook 3 5 (inl "timed out") None in
  let w := world_of (Some (CacheData (Some 2) (Some [1; 2]))) in
  3 > (read_cache (cache_file w)).1 /\
  api_all_passing env = inl "timed out" /\
  cache_file (send_progress_webhook env 3 5 "shop" w) <> cache_file w /\
  requests (send_progress_webhook env 3 5 "shop" w) <> requests w.
Proof. vm_compute. repeat split; discriminate. Qed.

(** C1, as the engine has it. When the passing count exceeds the snapshot
    count and the fetch of the passing features fails, the failure is
    printed and the cycle goes on: one request is sent that names no
    feature and carries the increase of the count, and the cache is
    rewritten with the new count and no ids. *)
Theorem fetch_failure_snapshot (env : Env) (passing total : Z)
    (project : string) (w : World) (e : string) :
  webhook_configured env = true ->
  api_all_passing env = inl e ->
  passing > (read_cache (cache_file w)).1 ->
  let w' := send_progress_webhook env passing total project w in
  cache_file w' = Some (CacheData (Some passing) (Some [])) /\
  ApiErrorGettingFeatures e ∈ stdout w' /\
  exists url payload,
    requests w' = requests w ++ [(url, [payload])] /\
    completed_tests payload = [] /\
    tests_completed_this_session payload
      = passing - (read_cache (cache_file w)).1.
Proof.
  intros Hconf Hapi Hgt w'. subst w'.
  apply webhook_configured_url in Hconf as (url & Hurl & Hne).
  rewrite (send_progress_webhook_increase env passing total project w url)
    by done.
  simpl. unfold current_ids, fetched. rewrite Hapi. simpl.
  repeat split.
  - set_solver.
  - exists url, (payload_of env passing total project (cache_file w)).
    repeat split. unfold payload_of, fetched. rewrite Hapi. simpl.
    by destruct (is_old_cache_format _).
Qed.

Lemma fetch_failure_snapshot_witness :
  let env := env_of hook 3 5 (inl "timed out") None in
  let w := world_of (Some (CacheData (Some 2) (Some [1; 2]))) in
  let w' := send_progress_webhook env 3 5 "shop" w in
  cache_file w' = Some (CacheData (Some 3) (Some [])) /\
  ApiErrorGettingFeatures "timed out" ∈ stdout w' /\
  exists url payload,
    requests w' = requests w ++ [(url, [payload])] /\
    completed_tests payload = [] /\
    tests_completed_this_session payload
      = 3 - (read_cache (cache_file w)).1.
Proof.
  intros env w.
  apply (fetch_failure_snapshot env 3 5 "shop" w "timed out");
    [reflexivity | reflexivity | vm_compute; reflexivity].
Defined.

(** C2. With a webhook configured, a snapshot that is not in the old
    format and a passing count above the snapshot's, the cycle sends one
    request that names exactly the fetched features whose id is in the
    current ids and not in the snapshot's, reports the increase
    [passing - count], and writes the snapshot made of [passing] and the
    current ids. *)
Theorem diff_engine_delta (env : Env) (passing total : Z) (project : string)
    (w : World) (count : Z) (ids : list Z) :
  webhook_configured env = true ->
  cache_file w = Some (CacheData (Some count) (Some ids)) ->
  ~ (ids = [] /\ count > 0) ->
  passing > count ->
  let w' := send_progress_webhook env passing total project w in
  exists url payload,
    requests w' = requests w ++ [(url, [payload])] /\
    completed_tests payload =
      describe <$> filter (fun f => pf_id f ∈ new_ids ids (current_ids env))
                          (fetched env) /\
    previous_passing payload = count /\
    tests_completed_this_session payload = passing - count /\
    cache_file w' = Some (CacheData (Some passing) (Some (current_ids env))).
Proof.
  intros Hconf Hfile Hfresh Hgt w'. subst w'.
  apply webhook_configured_url in Hconf as (url & Hurl & Hne).
  rewrite (send_progress_webhook_increase env passing total project w url)
    by (by rewrite ?Hfile).
  exists url, (payload_of env passing total project (cache_file w)).
  simpl. rewrite Hfile. repeat split.
  destruct (is_old_cache_format _) eqn:Hold.
  { apply is_old_cache_format_spec in Hold. done. }
  simpl. f_equal. apply filter_ext_elem_of. intros f Hf.
  unfold new_ids, current_ids. rewrite elem_of_difference, !elem_of_list_to_set.
  split; [|tauto]. intros Hnew. split; [|done].
  apply list_elem_of_fmap. by exists f.
Qed.

Lemma diff_engine_delta_witness :
  let env := env_of hook 4 6
               (inr [summary 1 "log in"; summary 2 "log out";
                     summary 3 "reset"; summary 5 "sign up"]) None in
  let w := world_of (Some (CacheData (Some 2) (Some [1; 2]))) in
  let w' := send_progress_webhook env 4 6 "shop" w in
  exists url payload,
    requests w' = requests w ++ [(url, [payload])] /\
    completed_tests payload =
      describe <$> filter (fun f => pf_id f ∈ new_ids [1; 2] (current_ids env))
                          (fetched env) /\
    previous_passing payload = 2 /\
    tests_completed_this_session payload = 4 - 2 /\
    cache_file w' = Some (CacheData (Some 4) (Some (current_ids env))).
Proof.
  intros env w.
  apply (diff_engine_delta env 4 6 "shop" w 2 [1; 2]);
    [reflexivity | reflexivity | intros [H _]; discriminate H | lia].
Defined.

(** The example of the claim, evaluated: from the snapshot [{2, {1,2}}] and
    the passing features 1, 2, 3 and 5 the engine names features 3 and 5,
    reports an increase of 2 and writes [{4, [1,2,3,5]}]. *)
Example diff_engine_delta_example :
  let env := env_of hook 4 6
               (inr [summary 1 "log in"; summary 2 "log out";
                     summary 3 "reset"; summary 5 "sign up"]) None in
  let w' := send_progress_webhook env 4 6 "shop"
              (world_of (Some (CacheData (Some 2) (Some [1; 2])))) in
  new_ids [1; 2] (current_ids env) = {[3; 5]} /\
  (completed_tests <$> ((requests w').*2 ≫= id)) = [["auth reset"; "auth sign up"]] /\
  (tests_completed_this_session <$> ((requests w').*2 ≫= id)) = [2] /\
  cache_file w' = Some (CacheData (Some 4) (Some [1; 2; 3; 5])).
Proof. vm_compute. repeat split; try reflexivity. Qed.

(** A request goes out only from a configured engine that found an
    increase. *)
Lemma delivery_attempted_inv (env : Env) (passing total : Z)
    (project : string) (w : World) :
  delivery_attempted w (send_progress_webhook env passing total project w) ->
  webhook_configured env = true /\ passing > (read_cache (cache_file w)).1.
Proof.
  unfold delivery_attempted. intros Hsent.
  destruct (webhook_configured env) eqn:Hconf.
  - split; [done|].
    destruct (decide (passing > (read_cache (cache_file w)).1)) as [|Hle];
      [done|].
    rewrite send_progress_webhook_no_increase in Hsent by (done || lia).
    by destruct (cache_file w).
  - by rewrite send_progress_webhook_not_configured in Hsent.
Qed.

(** C3. Whenever the call gets as far as sending the request, the cache
    file holds [passing] and the current ids afterwards, and it does so
    for every outcome of the request, failure included. *)
Theorem checkpoint_written_despite_sink (env : Env) (passing total : Z)
    (project : string) (w : World) :
  delivery_attempted w (send_progress_webhook env passing total project w) ->
  cache_file (send_progress_webhook env passing total project w)
    = Some (CacheData (Some passing) (Some (current_ids env))) /\
  forall err,
    cache_file (send_progress_webhook (with_webhook_error err env)
                  passing total project w)
    = Some (CacheData (Some passing) (Some (current_ids env))).
Proof.
  intros Hsent. apply delivery_attempted_inv in Hsent as [Hconf Hgt].
  apply webhook_configured_url in Hconf as (url & Hurl & Hne).
  split.
  - by rewrite (send_progress_webhook_increase env passing total project w url).
  - intros err.
    by rewrite (send_progress_webhook_increase (with_webhook_error err env)
                  passing total project w url).
Qed.

Lemma checkpoint_written_despite_sink_witness :
  let env := env_of hook 4 6
               (inr [summary 1 "log in"; summary 2 "log out";
                     summary 3 "reset"; summary 5 "sign up"])
               (Some "connection refused") in
  let w := world_of (Some (CacheData (Some 2) (Some [1; 2]))) in
  delivery_attempted w (send_progress_webhook env 4 6 "shop" w) /\
  WebhookNotificationFailed "connection refused"
    ∈ stdout (send_progress_webhook env 4 6 "shop" w) /\
  cache_file (send_progress_webhook env 4 6 "shop" w)
    = Some (CacheData (Some 4) (Some [1; 2; 3; 5])).
Proof.
  intros env w.
  assert (delivery_attempted w (send_progress_webhook env 4 6 "shop" w))
    as Hsent by (vm_compute; discriminate).
  split; [exact Hsent|]. split; [vm_compute; set_solver|].
  exact (proj1 (checkpoint_written_despite_sink env 4 6 "shop" w Hsent)).
Defined.

(** C4. With a webhook configured, a snapshot that names no id and counts
    more than zero, and a passing count above the snapshot's, the cycle
    sends one request that reports the increase [passing - count] and
    names no feature, whatever the fetch returns. *)
Theorem legacy_snapshot_aggregate_only (env : Env) (passing total : Z)
    (project : string) (w : World) (count : Z) (ids : option (list Z)) :
  webhook_configured env = true ->
  cache_file w = Some (CacheData (Some count) ids) ->
  default [] ids = [] ->
  count > 0 ->
  passing > count ->
  let w' := send_progress_webhook env passing total project w in
  exists url payload,
    requests w' = requests w ++ [(url, [payload])] /\
    previous_passing payload = count /\
    tests_completed_this_session payload = passing - count /\
    completed_tests payload = [].
Proof.
  intros Hconf Hfile Hids Hcount Hgt w'. subst w'.
  apply webhook_configured_url in Hconf as (url & Hurl & Hne).
  rewrite (send_progress_webhook_increase env passing total project w url)
    by (by rewrite ?Hfile).
  exists url, (payload_of env passing total project (cache_file w)).
  simpl. rewrite Hfile. repeat split.
  by rewrite (proj2 (is_old_cache_format_spec (Some count) ids)).
Qed.

Lemma legacy_snapshot_aggregate_only_witness :
  let env := env_of hook 4 6
               (inr [summary 1 "log in"; summary 2 "log out";
                     summary 3 "reset"; summary 4 "sign up"]) None in
  let w := world_of (Some (CacheData (Some 3) (Some []))) in
  let w' := send_progress_webhook env 4 6 "shop" w in
  exists url payload,
    requests w' = requests w ++ [(url, [payload])] /\
    previous_passing payload = 3 /\
    tests_completed_this_session payload = 4 - 3 /\
    completed_tests payload = [].
Proof.
  intros env w.
  apply (legacy_snapshot_aggregate_only env 4 6 "shop" w 3 (Some []));
    [reflexivity | reflexivity | reflexivity | lia | lia].
Defined.

(** The example of the claim, evaluated: one request, an increase of 1, no
    feature named. *)
Example legacy_snapshot_example :
  let env := env_of hook 4 6
               (inr [summary 1 "log in"; summary 2 "log out";
                     summary 3 "reset"; summary 4 "sign up"]) None in
  let w' := send_progress_webhook env 4 6 "shop"
              (world_of (Some (CacheData (Some 3) (Some [])))) in
  ((fun p => (tests_completed_this_session p, completed_tests p))
     <$> ((requests w').*2 ≫= id)) = [(1, [])].
Proof. reflexivity. Qed.

(** C9. With a webhook configured, no cache file and a positive total, a
    call of [print_progress_summary] leaves a cache file that holds the
    passing count and the ids fetched; so does a direct call of the
    engine, whatever the counts. *)
Theorem first_invocation_creates_snapshot (env : Env) (project : string)
    (w : World) (passing total : Z) :
  webhook_configured env = true ->
  cache_file w = None ->
  api_stats env = inr (passing, total) ->
  total > 0 ->
  cache_file (print_progress_summary env project w)
    = Some (CacheData (Some passing) (Some (current_ids env))) /\
  forall passing' total',
    cache_file (send_progress_webhook env passing' total' project w)
    = Some (CacheData (Some passing') (Some (current_ids env))).
Proof.
  intros Hconf Hnone Hstats Htotal.
  assert (forall p t v, cache_file v = None ->
            cache_file (send_progress_webhook env p t project v)
            = Some (CacheData (Some p) (Some (current_ids env)))) as Hsend.
  { intros p t v Hv.
    destruct (decide (p > (read_cache (cache_file v)).1)) as [Hgt|Hle].
    - destruct (webhook_configured_url env Hconf) as (url & Hurl & Hne).
      by rewrite (send_progress_webhook_increase env p t project v url).
    - rewrite send_progress_webhook_no_increase by (done || lia).
      by rewrite Hv. }
  split; [|intros p t; by apply Hsend].
  unfold print_progress_summary, count_passing_tests. rewrite Hstats.
  rewrite bool_decide_eq_true_2 by done. by apply Hsend.
Qed.

Lemma first_invocation_creates_snapshot_witness :
  let env := env_of hook 0 6 (inr []) None in
  let w := world_of None in
  cache_file (print_progress_summary env "shop" w)
    = Some (CacheData (Some 0) (Some [])) /\
  requests (print_progress_summary env "shop" w) = [].
Proof.
  intros env w. split; [|reflexivity].
  apply (proj1 (first_invocation_creates_snapshot env "shop" w 0 6
                  eq_refl eq_refl eq_refl eq_refl)).
Defined.

(** With no webhook URL, which is how the module starts unless the
    environment sets one, the first call on a project with six features
    returns before it reads or writes the cache: no file exists
    afterwards. *)
Lemma first_invocation_without_webhook_creates_nothing :
  let env := env_of None 4 6
               (inr [summary 1 "log in"; summary 2 "log out";
                     summary 3 "reset"; summary 5 "sign up"]) None in
  let w := world_of None in
  cache_file w = None /\
  api_stats env = inr (4, 6) /\
  6 > 0 /\
  cache_file (print_progress_summary env "shop" w) = None /\
  ~ exists snapshot,
      cache_file (print_progress_summary env "shop" w) = Some snapshot.
Proof.
  vm_compute. repeat split; try reflexivity.
  intros [snapshot Hsome]. discriminate Hsome.
Qed.

(** C10. With a webhook configured and a cache file that cannot be read,
    the engine starts from a count of 0 and no ids; when the passing count
    is positive it therefore sends one request that gives 0 as the previous
    count, reports the whole passing count as the increase and names every
    feature fetched, and it writes the cache anew. *)
Theorem unreadable_cache_is_fresh_baseline (env : Env) (passing total : Z)
    (project : string) (w : World) :
  webhook_configured env = true ->
  cache_file w = Some Unreadable ->
  passing > 0 ->
  let w' := send_progress_webhook env passing total project w in
  read_cache (cache_file w) = (0, ∅) /\
  (exists url payload,
     requests w' = requests w ++ [(url, [payload])] /\
     previous_passing payload = 0 /\
     tests_completed_this_session payload = passing /\
     completed_tests payload = describe <$> fetched env) /\
  cache_file w' = Some (CacheData (Some passing) (Some (current_ids env))).
Proof.
  intros Hconf Hfile Hgt w'. subst w'.
  apply webhook_configured_url in Hconf as (url & Hurl & Hne).
  rewrite (send_progress_webhook_increase env passing total project w url)
    by (by rewrite ?Hfile).
  rewrite Hfile. simpl. repeat split.
  exists url, (payload_of env passing total project (Some Unreadable)).
  unfold payload_of, is_old_cache_format. simpl. repeat split.
  - f_equal. lia.
  - f_equal. induction (fetched env) as [|f fs IH]; [done|].
    rewrite filter_cons. destruct (decide _) as [|Hin]; [by rewrite IH|].
    exfalso. apply Hin. set_solver.
Qed.

Lemma unreadable_cache_is_fresh_baseline_witness :
  let env := env_of hook 2 6
               (inr [summary 1 "log in"; summary 2 "log out"]) None in
  let w := world_of (Some Unreadable) in
  let w' := send_progress_webhook env 2 6 "shop" w in
  read_cache (cache_file w) = (0, ∅) /\
  (exists url payload,
     requests w' = requests w ++ [(url, [payload])] /\
     previous_passing payload = 0 /\
     tests_completed_this_session payload = 2 /\
     completed_tests payload = describe <$> fetched env) /\
  cache_file w' = Some (CacheData (Some 2) (Some (current_ids env))).
Proof.
  intros env w.
  apply (unreadable_cache_is_fresh_baseline env 2 6 "shop" w);
    [reflexivity | reflexivity | lia].
Defined.

End ProgressSpec.


(** ** Further properties of the handlers *)
Module QueueLaws.
Import Routes Progress Handlers Samples Terms Wiring RoutesSpec.

#[local] Existing Instance priority_id_le_trans.
#[local] Existing Instance priority_id_le_total.

(** A selection of rows of a table, in any order of the table's rows. *)
Lemma selection_NoDup_ids (db : gmap Z Feature) (q : list (Z * Feature)) :
  q `sublist_of` all_rows db -> NoDup (q.*1).
Proof.
  intros Hsub. apply (sublist_NoDup _ ((all_rows db).*1)).
  - apply NoDup_fst_map_to_list.
  - by apply fmap_sublist.
Qed.

Lemma order_by_priority_id_Permutation (q : list (Z * Feature)) :
  order_by_priority_id q ≡ₚ q.
Proof. apply merge_sort_Permutation. Qed.

Lemma order_by_priority_id_sorted (q : list (Z * Feature)) :
  StronglySorted priority_id_le (order_by_priority_id q).
Proof. apply StronglySorted_merge_sort; apply _. Qed.

(** Rows with distinct ids have one order by priority and id. *)
Lemma order_by_priority_id_unique (q1 q2 : list (Z * Feature)) :
  NoDup (q1.*1) -> q1 ≡ₚ q2 -> order_by_priority_id q1 = order_by_priority_id q2.
Proof.
  intros Hdup Hperm.
  apply (StronglySorted_unique_strong priority_id_le);
    [|apply order_by_priority_id_sorted..|
     by rewrite !order_by_priority_id_Permutation].
  intros [i f] [j g] Hi Hj Hle Hge.
  rewrite order_by_priority_id_Permutation in Hi, Hj. rewrite <- Hperm in Hj.
  assert (i = j) as <- by (unfold priority_id_le in *; simpl in *; lia).
  f_equal.
  apply list_elem_of_lookup in Hi as [a Ha], Hj as [b Hb].
  assert (a = b) as <-.
  { apply (NoDup_lookup (q1.*1) a b i); [done|..];
      rewrite list_lookup_fmap; [by rewrite Ha|by rewrite Hb]. }
  congruence.
Qed.

Lemma elem_of_filter_rows (P : Z * Feature -> Prop) `{!forall x, Decision (P x)}
    (db : gmap Z Feature) id f :
  (id, f) ∈ filter P (all_rows db) <-> P (id, f) /\ db !! id = Some f.
Proof. by rewrite list_elem_of_filter, elem_of_all_rows. Qed.

Lemma filter_rows_NoDup_ids (P : Z * Feature -> Prop)
    `{!forall x, Decision (P x)} (db : gmap Z Feature) :
  NoDup ((filter P (all_rows db)).*1).
Proof. apply (selection_NoDup_ids db), sublist_filter. Qed.

(** X1. The all-passing answer lists every passing feature of the table,
    and nothing else, once each, ordered by priority and then id; its count
    is the length of the list and equals the passing count of the
    statistics. *)
Theorem get_all_passing_exact (db : gmap Z Feature) :
  let r := get_all_passing db in
  (forall s, s ∈ ap_features r <->
     exists f, db !! ps_id s = Some f /\ passes f = true /\
               s = mkPassingFeatureSummary (ps_id s) (category f) (name f)) /\
  NoDup (ps_id <$> ap_features r) /\
  StronglySorted priority_id_le (get_all_passing_features db) /\
  ps_id <$> ap_features r = (get_all_passing_features db).*1 /\
  ap_count r = Z.of_nat (length (ap_features r)) /\
  ap_count r = st_passing (get_stats db).
Proof.
  unfold get_all_passing, get_stats, get_all_passing_features. simpl.
  set (q := filter (fun row => passes row.2 = true) (all_rows db)).
  repeat split.
  - intros Hs. apply list_elem_of_fmap in Hs as ([id f] & -> & Hrow).
    rewrite order_by_priority_id_Permutation in Hrow.
    apply elem_of_filter_rows in Hrow as [Hp Hf]. by exists f.
  - intros (f & Hf & Hp & ->). apply list_elem_of_fmap.
    exists (ps_id s, f). split; [done|].
    rewrite order_by_priority_id_Permutation. by apply elem_of_filter_rows.
  - rewrite <- list_fmap_compose.
    change (NoDup ((order_by_priority_id q).*1)).
    rewrite order_by_priority_id_Permutation. apply filter_rows_NoDup_ids.
  - apply order_by_priority_id_sorted.
  - by rewrite <- list_fmap_compose.
  - by rewrite length_fmap.
  - by rewrite order_by_priority_id_Permutation.
Qed.

(** What [get_next_feature] answers, by cases. *)
Lemma get_next_feature_cases (db : gmap Z Feature) :
  (get_next_feature db = Raise no_more_work /\
   forall id f, db !! id = Some f -> passes f = true) \/
  (exists id f,
     get_next_feature db = Ok (to_dict (id, f)) /\
     db !! id = Some f /\ passes f = false /\
     forall id' f', db !! id' = Some f' -> passes f' = false ->
       priority_id_le (id, f) (id', f')).
Proof.
  unfold get_next_feature, order_by_priority_id.
  pose proof (first_merge_sort priority_id_le
    (filter (fun row => passes row.2 = false) (all_rows db))) as H.
  destruct (first _) as [[id f]|].
  - right. destruct H as [Hin Hmin].
    apply elem_of_filter_rows in Hin as [Hp Hf]. exists id, f.
    repeat split; try done. intros id' f' Hf' Hp'.
    apply Hmin. by apply elem_of_filter_rows.
  - left. split; [done|]. intros id f Hf.
    destruct (passes f) eqn:Hp; [done|].
    assert ((id, f) ∈ filter (fun row => passes row.2 = false) (all_rows db))
      as Hin by (by apply elem_of_filter_rows).
    rewrite H in Hin. by apply elem_of_nil in Hin.
Qed.

(** The pending feature that comes first is the one handed out. *)
Lemma get_next_feature_is (db : gmap Z Feature) (id : Z) (f : Feature) :
  db !! id = Some f -> passes f = false ->
  (forall id' f', db !! id' = Some f' -> passes f' = false ->
     priority_id_le (id, f) (id', f')) ->
  get_next_feature db = Ok (to_dict (id, f)).
Proof.
  intros Hf Hp Hmin.
  destruct (get_next_feature_cases db) as [[_ Hall]|(i & g & -> & Hg & Hpg & Hming)].
  - specialize (Hall id f Hf). congruence.
  - specialize (Hmin i g Hg Hpg). specialize (Hming id f Hf Hp).
    assert (i = id) as -> by (unfold priority_id_le in *; simpl in *; lia).
    congruence.
Qed.

Lemma get_next_feature_none (db : gmap Z Feature) :
  (forall id f, db !! id = Some f -> passes f = true) ->
  get_next_feature db = Raise no_more_work.
Proof.
  intros Hall.
  destruct (get_next_feature_cases db) as [[-> _]|(i & g & _ & Hg & Hpg & _)];
    [done|].
  specialize (Hall i g Hg). congruence.
Qed.

Lemma length_filter_all {A} (P : A -> Prop) `{!forall x, Decision (P x)}
    (l : list A) :
  length (filter P l) = length l <-> forall x, x ∈ l -> P x.
Proof.
  induction l as [|x l IH]; simpl.
  - split; [|done]. intros _ y Hy. by apply elem_of_nil in Hy.
  - rewrite filter_cons. pose proof (length_filter P l) as Hle.
    destruct (decide (P x)) as [Hx|Hx]; simpl.
    + split.
      * intros Hlen y Hy. apply elem_of_cons in Hy as [->|Hy]; [done|].
        apply IH; [lia|done].
      * intros Hall. f_equal. apply IH. intros y Hy. apply Hall. by right.
    + split; [lia|]. intros Hall. destruct Hx. apply Hall. by left.
Qed.

(** X2. The statistics count the rows of the table and, among them, the
    passing ones; the two counts are equal exactly when next-feature has
    nothing left to hand out. *)
Theorem get_stats_counts (db : gmap Z Feature) :
  let s := get_stats db in
  st_total s = Z.of_nat (size db) /\
  0 <= st_passing s <= st_total s /\
  (st_passing s = st_total s <-> get_next_feature db = Raise no_more_work).
Proof.
  unfold get_stats. simpl.
  pose proof (length_filter (fun row => passes row.2 = true) (all_rows db))
    as Hle.
  repeat split; try lia.
  - unfold all_rows. by rewrite length_map_to_list.
  - intros Heq. apply get_next_feature_none. intros id f Hf.
    apply Nat2Z.inj in Heq.
    apply (proj1 (length_filter_all _ _) Heq (id, f)).
    by apply elem_of_all_rows.
  - intros Hnone. f_equal. apply length_filter_all. intros [id f] Hrow.
    apply elem_of_all_rows in Hrow.
    destruct (get_next_feature_cases db) as [[_ Hall]|(i & g & Hok & _)].
    + by apply (Hall id f).
    + congruence.
Qed.

Lemma length_filter_rows (P : Z * Feature -> Prop)
    `{!forall x, Decision (P x)} (db : gmap Z Feature) :
  length (filter P (all_rows db)) = size (filter P db).
Proof.
  rewrite map_filter_alt. rewrite <- length_map_to_list.
  rewrite map_to_list_to_map; [done|]. apply filter_rows_NoDup_ids.
Qed.

(** The rows [list_features] pages through. *)
Lemma list_features_query (passes_eq : option bool)
    (category_eq : option string) (db : gmap Z Feature) :
  match category_eq with
  | Some c =>
      filter (fun row => category row.2 = c)
        match passes_eq with
        | Some p => filter (fun row => passes row.2 = p) (all_rows db)
        | None => all_rows db
        end
  | None =>
      match passes_eq with
      | Some p => filter (fun row => passes row.2 = p) (all_rows db)
      | None => all_rows db
      end
  end = filter (fun row => matches passes_eq category_eq row.2) (all_rows db).
Proof.
  unfold matches. destruct category_eq as [c|], passes_eq as [p|]; simpl.
  - rewrite list_filter_filter. apply list_filter_iff. tauto.
  - apply list_filter_iff. tauto.
  - apply list_filter_iff. tauto.
  - symmetry. induction (all_rows db) as [|x l IH]; [done|].
    rewrite filter_cons_True by done. by f_equal.
Qed.

(** An answered list request, spelled out. *)
Lemma list_features_inv (limit offset : option Z) (passes_eq : option bool)
    (category_eq : option string) (random : bool) (draws : list nat)
    (db : gmap Z Feature) (page : FeatureListResponse) :
  list_features limit offset passes_eq category_eq random draws db = Ok page ->
  let l := default 5 limit in
  let o := default 0 offset in
  let q := filter (fun row => matches passes_eq category_eq row.2) (all_rows db) in
  1 <= l <= 5 /\ 0 <= o /\
  page = mkFeatureListResponse
           (to_dict <$>
              (if random then take (Z.to_nat l) (order_by_random draws q)
               else take (Z.to_nat l)
                      (drop (Z.to_nat o) (order_by_priority_id q))))
           (Z.of_nat (length q)) l o.
Proof.
  unfold list_features.
  pose proof (Query_spec 5 (Some 1) (Some 5) limit) as Hl.
  destruct (Query 5 (Some 1) (Some 5) limit) as [l|e]; simpl in Hl; [|done].
  pose proof (Query_spec 0 (Some 0) None offset) as Ho.
  destruct (Query 0 (Some 0) None offset) as [o|e]; simpl in Ho; [|done].
  rewrite list_features_query. intros [= <-].
  assert (l = default 5 limit /\ 1 <= l <= 5) as [-> Hbound]
    by (destruct Hl as [[-> ->]|[-> ?]]; simpl; lia).
  assert (o = default 0 offset /\ 0 <= o) as [-> Hoff]
    by (destruct Ho as [[-> ->]|[-> ?]]; simpl; lia).
  done.
Qed.

Lemma list_features_sent (l o : Z) (passes_eq : option bool)
    (category_eq : option string) (random : bool) (draws : list nat)
    (db : gmap Z Feature) :
  1 <= l <= 5 -> 0 <= o ->
  let q := filter (fun row => matches passes_eq category_eq row.2) (all_rows db) in
  list_features (Some l) (Some o) passes_eq category_eq random draws db =
    Ok (mkFeatureListResponse
          (to_dict <$>
             (if random then take (Z.to_nat l) (order_by_random draws q)
              else take (Z.to_nat l)
                     (drop (Z.to_nat o) (order_by_priority_id q))))
          (Z.of_nat (length q)) l o).
Proof.
  intros Hl Ho. unfold list_features, Query. simpl.
  rewrite !(proj2 (Z.leb_le _ _)) by lia. simpl.
  by rewrite list_features_query.
Qed.

Lemma to_dict_id (row : Z * Feature) : r_id (to_dict row) = row.1.
Proof. by destruct row. Qed.

(** X3. Every feature on an answered page is a row of the table that
    passes the filters of the request, no feature is on the page twice, and
    [total] is the number of rows of the table that pass the filters,
    whatever the limit, the offset and the order asked for; without
    [random] the page is in the order of priority, then id. *)
Theorem list_features_page_contents (limit offset : option Z)
    (passes_eq : option bool) (category_eq : option string) (random : bool)
    (draws : list nat) (db : gmap Z Feature) (page : FeatureListResponse) :
  list_features limit offset passes_eq category_eq random draws db = Ok page ->
  (forall r, r ∈ features page ->
     exists f, db !! r_id r = Some f /\ r = to_dict (r_id r, f) /\
               matches passes_eq category_eq f) /\
  NoDup (r_id <$> features page) /\
  Routes.total page =
    Z.of_nat (size (filter (fun row => matches passes_eq category_eq row.2) db)) /\
  (random = false -> StronglySorted by_priority_id (features page)).
Proof.
  intros Hok. apply list_features_inv in Hok as (Hl & Ho & ->). simpl.
  set (q := filter (fun row => matches passes_eq category_eq row.2) (all_rows db)).
  set (window := if random then _ else _).
  assert (window ⊆ q) as Hsub.
  { subst window. destruct random.
    - etrans; [apply subseteq_take|]. intros x.
      by rewrite order_by_random_Permutation.
    - etrans; [apply subseteq_take|]. etrans; [apply subseteq_drop|].
      intros x. by rewrite order_by_priority_id_Permutation. }
  assert (NoDup (window.*1)) as Hdup.
  { subst window. destruct random.
    - apply (sublist_NoDup _ ((order_by_random draws q).*1)).
      + rewrite order_by_random_Permutation. apply filter_rows_NoDup_ids.
      + apply fmap_sublist, sublist_take.
    - apply (sublist_NoDup _ ((order_by_priority_id q).*1)).
      + rewrite order_by_priority_id_Permutation. apply filter_rows_NoDup_ids.
      + apply fmap_sublist. etrans; [apply sublist_take|apply sublist_drop]. }
  repeat split.
  - intros r Hr. apply list_elem_of_fmap in Hr as ([id f] & -> & Hrow).
    apply Hsub, elem_of_filter_rows in Hrow as [Hm Hf]. by exists f.
  - rewrite <- list_fmap_compose.
    by rewrite (list_fmap_ext (r_id ∘ to_dict) fst window)
      by (by intros ? []).
  - f_equal. apply length_filter_rows.
  - intros ->. subst window. simpl.
    apply (StronglySorted_fmap _ priority_id_le by_priority_id).
    { by intros [??] [??]. }
    pose proof (order_by_priority_id_sorted q) as Hsorted.
    rewrite <- (take_drop (Z.to_nat (default 0 offset))
                  (order_by_priority_id q)) in Hsorted.
    apply StronglySorted_app_1_r in Hsorted.
    rewrite <- (take_drop (Z.to_nat (default 5 limit))
                  (drop _ (order_by_priority_id q))) in Hsorted.
    by apply StronglySorted_app_1_l in Hsorted.
Qed.

(** X4. Without [random], a page of [l1] features at offset [o] followed
    by the page of [l2] features at offset [o + l1] is the page of
    [l1 + l2] features at offset [o]: consecutive pages neither overlap nor
    leave a feature out. *)
Theorem list_features_pages_chain (l1 l2 o : Z) (passes_eq : option bool)
    (category_eq : option string) (draws : list nat) (db : gmap Z Feature) :
  1 <= l1 -> 1 <= l2 -> l1 + l2 <= 5 -> 0 <= o ->
  listed (list_features (Some l1) (Some o) passes_eq category_eq false draws db)
  ++ listed (list_features (Some l2) (Some (o + l1)) passes_eq category_eq
               false draws db)
  = listed (list_features (Some (l1 + l2)) (Some o) passes_eq category_eq
              false draws db).
Proof.
  intros H1 H2 H12 Ho.
  rewrite !list_features_sent by lia. simpl.
  rewrite <- fmap_app. f_equal.
  rewrite Z2Nat.inj_add by lia. rewrite <- drop_drop.
  rewrite Z2Nat.inj_add by lia. apply take_take_drop.
Qed.

Lemma list_features_pages_chain_witness :
  r_id <$> (listed (list_features (Some 2) (Some 1) None None false [] table7)
            ++ listed (list_features (Some 3) (Some (1 + 2)) None None false []
                         table7))
  = [2; 3; 4; 5; 6].
Proof.
  rewrite (list_features_pages_chain 2 3 1 None None [] table7) by lia.
  reflexivity.
Defined.

(** X5. The first feature on a page of pending features taken from the
    start of the queue is the feature next-feature hands out, and the page
    is empty exactly when next-feature answers that no work is left. *)
Theorem list_features_pending_head_is_next (l : Z) (draws : list nat)
    (db : gmap Z Feature) :
  1 <= l <= 5 ->
  match get_next_feature db with
  | Ok r =>
      head (listed (list_features (Some l) None (Some false) None false
                      draws db)) = Some r
  | Raise e =>
      e = no_more_work /\
      listed (list_features (Some l) None (Some false) None false draws db)
        = []
  end.
Proof.
  intros Hl.
  assert (list_features (Some l) None (Some false) None false draws db
          = list_features (Some l) (Some 0) (Some false) None false draws db)
    as -> by done.
  rewrite list_features_sent by lia. cbv zeta.
  assert (filter (fun row => matches (Some false) None row.2) (all_rows db)
          = filter (fun row => passes row.2 = false) (all_rows db)) as ->.
  { apply list_filter_iff. intros row. unfold matches. simpl. tauto. }
  unfold get_next_feature, first. cbn [listed features].
  destruct (order_by_priority_id _) as [|row rest]; simpl.
  - split; [done|]. by rewrite take_nil.
  - destruct (Z.to_nat l) eqn:Hn; [lia|done].
Qed.

Lemma list_features_pending_head_is_next_witness :
  head (listed (list_features (Some 2) None (Some false) None false []
                  table4))
  = Some (to_dict (3, feature 2 "reset" false)).
Proof.
  exact (list_features_pending_head_is_next 2 [] table4
           ltac:(lia)).
Defined.

(** The priority given to a new or skipped feature is above every
    priority in the table, by one above the largest, and 1 on an empty
    table. *)
Lemma next_priority_above (db : gmap Z Feature) :
  let p := next_priority_of (query_max_priority db) in
  (forall id f, db !! id = Some f -> priority f < p) /\
  (db = ∅ -> p = 1) /\
  (db <> ∅ -> exists id f, db !! id = Some f /\ priority f = p - 1).
Proof.
  pose proof (query_max_priority_spec db) as Hmax. unfold next_priority_of.
  destruct (query_max_priority db) as [m|]; simpl.
  - destruct Hmax as [(id & f & Hf & Hm) Hbound]. repeat split.
    + intros id' f' Hf'. specialize (Hbound id' f' Hf'). lia.
    + intros ->. by rewrite lookup_empty in Hf.
    + intros _. exists id, f. split; [done|lia].
  - subst db. repeat split; done.
Qed.

(** After a row with a priority above all others is put in, the next
    priority is one above it. *)
Lemma next_priority_insert (db : gmap Z Feature) (id : Z) (row : Feature) :
  (forall id' f, db !! id' = Some f -> priority f <= priority row) ->
  next_priority_of (query_max_priority (<[id := row]> db)) = priority row + 1.
Proof.
  intros Hbelow.
  destruct (next_priority_above (<[id := row]> db)) as (Habove & _ & Hreach).
  simpl in *. specialize (Habove id row (lookup_insert_eq _ _ _)).
  destruct Hreach as (i & g & Hg & Hp).
  { intros Hempty. pose proof (lookup_insert_eq db id row) as Hrow.
    by rewrite Hempty, lookup_empty in Hrow. }
  destruct (decide (i = id)) as [->|Hne].
  - rewrite lookup_insert_eq in Hg. injection Hg as <-. lia.
  - rewrite lookup_insert_ne in Hg by done. specialize (Hbelow i g Hg). lia.
Qed.

(** X6. A valid creation under a fresh id stores the feature as pending
    with a priority above every priority in the table (1 on an empty
    table), answers with what [get_feature] then returns for that id, and
    leaves every other row as it was. *)
Theorem create_feature_appends (new_id : Z) (c : FeatureCreate)
    (db : gmap Z Feature) :
  valid_FeatureCreate c = true -> db !! new_id = None ->
  let db' := (create_feature new_id c db).1 in
  exists row,
    db' !! new_id = Some row /\
    (create_feature new_id c db).2 = Ok (to_dict (new_id, row)) /\
    get_feature new_id db' = (create_feature new_id c db).2 /\
    passes row = false /\
    (category row, name row, description row, steps row)
      = (c_category c, c_name c, c_description c, c_steps c) /\
    (db = ∅ -> priority row = 1) /\
    (forall id f, db !! id = Some f ->
       priority f < priority row /\ db' !! id = Some f) /\
    size db' = S (size db).
Proof.
  intros Hvalid Hfresh db'. subst db'. unfold create_feature.
  rewrite Hvalid. simpl.
  destruct (next_priority_above db) as (Habove & Hempty & _).
  eexists. rewrite lookup_insert_eq. split; [done|].
  unfold get_feature. rewrite lookup_insert_eq. simpl.
  repeat split; try done.
  - by apply Habove in H.
  - rewrite lookup_insert_ne; [done|]. intros ->. congruence.
  - by apply map_size_insert_None.
Qed.

Lemma create_feature_appends_witness :
  let db' := (create_feature 9 (new_feature "search") table4).1 in
  exists row,
    db' !! 9 = Some row /\
    (create_feature 9 (new_feature "search") table4).2
      = Ok (to_dict (9, row)) /\
    get_feature 9 db' = (create_feature 9 (new_feature "search") table4).2 /\
    passes row = false /\
    (category row, name row, description row, steps row)
      = ("auth", "search", "As a user I can " +:+ "search",
         ["open the page"; "search"]) /\
    (table4 = ∅ -> priority row = 1) /\
    (forall id f, table4 !! id = Some f ->
       priority f < priority row /\ db' !! id = Some f) /\
    size db' = S (size table4).
Proof.
  apply (create_feature_appends 9 (new_feature "search") table4);
    reflexivity.
Defined.

(** X7. A valid creation under a fresh id does not change which feature
    next-feature hands out, unless no work was left: then the new feature
    is handed out. *)
Theorem create_feature_then_next (new_id : Z) (c : FeatureCreate)
    (db : gmap Z Feature) :
  valid_FeatureCreate c = true -> db !! new_id = None ->
  get_next_feature (create_feature new_id c db).1 =
    match get_next_feature db with
    | Ok r => Ok r
    | Raise _ => (create_feature new_id c db).2
    end.
Proof.
  intros Hvalid Hfresh. unfold create_feature. rewrite Hvalid. simpl.
  destruct (next_priority_above db) as (Habove & _ & _). simpl in Habove.
  set (row := mkFeature _ _ _ _ _ _).
  destruct (get_next_feature_cases db)
    as [[-> Hall]|(i & g & -> & Hg & Hpg & Hmin)].
  - apply (get_next_feature_is _ new_id row);
      [by rewrite lookup_insert_eq|done|].
    intros id' f' Hf' Hp'. destruct (decide (id' = new_id)) as [->|Hne].
    + rewrite lookup_insert_eq in Hf'. injection Hf' as <-.
      right. simpl. lia.
    + rewrite lookup_insert_ne in Hf' by done.
      specialize (Hall id' f' Hf'). congruence.
  - assert (i <> new_id) as Hne by (intros ->; congruence).
    apply (get_next_feature_is _ i g); [by rewrite lookup_insert_ne|done|].
    intros id' f' Hf' Hp'. destruct (decide (id' = new_id)) as [->|Hne'].
    + rewrite lookup_insert_eq in Hf'. injection Hf' as <-.
      left. simpl. by apply (Habove i g).
    + rewrite lookup_insert_ne in Hf' by done. by apply Hmin.
Qed.

Lemma create_feature_then_next_witness :
  get_next_feature (create_feature 9 (new_feature "search") table4).1
  = Ok (to_dict (3, feature 2 "reset" false)).
Proof.
  exact (create_feature_then_next 9 (new_feature "search") table4
           eq_refl eq_refl).
Defined.

(** The loop of the bulk creation, run on any prefix of the features. *)
Lemma foldl_add_bulk_item (start : Z) (items : list (Z * FeatureCreate))
    (db : gmap Z Feature) (n : nat) (count : Z) :
  foldl (add_bulk_item start) (db, count)
        (imap (fun i item => ((n + i)%nat, item)) items)
  = (foldl (fun db item =>
              <[item.2.1 := created_row (start + Z.of_nat item.1) item.2.2]> db)
           db (imap (fun i item => ((n + i)%nat, item)) items),
     count + Z.of_nat (length items)).
Proof.
  revert db n count. induction items as [|[id c] items IH]; intros db n count.
  - simpl. f_equal. lia.
  - rewrite !imap_cons. simpl.
    rewrite !(imap_ext (_ ∘ S) (fun i item => ((S n + i)%nat, item)))
      by (intros; simpl; f_equal; lia).
    rewrite IH. f_equal. lia.
Qed.

Lemma valid_FeatureBulkCreate_inv (features : list FeatureCreate) :
  valid_FeatureBulkCreate features = true ->
  features <> [] /\ forall c, c ∈ features -> valid_FeatureCreate c = true.
Proof.
  unfold valid_FeatureBulkCreate. rewrite andb_true_iff.
  intros [Hlen Hall]. split.
  - intros ->. done.
  - intros c Hc. rewrite forallb_forall in Hall. apply Hall.
    by apply list_elem_of_In.
Qed.

(** The table and the count the bulk creation commits. *)
Lemma create_features_bulk_table (new_ids : list Z)
    (features : list FeatureCreate) (db : gmap Z Feature) :
  valid_FeatureBulkCreate features = true ->
  let start := next_priority_of (query_max_priority db) in
  create_features_bulk new_ids features db =
    (foldl (fun db item =>
              <[item.2.1 := created_row (start + Z.of_nat item.1) item.2.2]> db)
           db (imap (fun i item => ((0 + i)%nat, item)) (zip new_ids features)),
     Ok (Z.of_nat (length (zip new_ids features)))).
Proof.
  intros Hvalid start. unfold create_features_bulk. rewrite Hvalid.
  change (imap (fun i item => (i, item)) (zip new_ids features))
    with (imap (fun i item => ((0 + i)%nat, item)) (zip new_ids features)).
  by rewrite foldl_add_bulk_item.
Qed.

Section Inserts.
Context (row_of : nat * (Z * FeatureCreate) -> Feature).

Lemma foldl_put_other (items : list (nat * (Z * FeatureCreate)))
    (db : gmap Z Feature) (id : Z) :
  id ∉ (fun item => item.2.1) <$> items ->
  foldl (fun db item => <[item.2.1 := row_of item]> db) db items !! id
  = db !! id.
Proof.
  revert db. induction items as [|item items IH]; intros db Hid; [done|].
  simpl. rewrite fmap_cons, not_elem_of_cons in Hid. destruct Hid as [Hne Hid].
  rewrite IH by done. by rewrite lookup_insert_ne.
Qed.

Lemma foldl_put_item (items : list (nat * (Z * FeatureCreate)))
    (db : gmap Z Feature) (item : nat * (Z * FeatureCreate)) :
  NoDup ((fun item => item.2.1) <$> items) -> item ∈ items ->
  foldl (fun db item => <[item.2.1 := row_of item]> db) db items !! item.2.1
  = Some (row_of item).
Proof.
  revert db. induction items as [|x items IH]; intros db Hdup Hin.
  { by apply elem_of_nil in Hin. }
  rewrite fmap_cons in Hdup. apply NoDup_cons in Hdup as [Hx Hdup].
  simpl. apply elem_of_cons in Hin as [->|Hin].
  - rewrite foldl_put_other by done. by rewrite lookup_insert_eq.
  - by apply IH.
Qed.
End Inserts.

Lemma imap_pair_ids (n : nat) (new_ids : list Z) (features : list FeatureCreate) :
  length new_ids = length features ->
  (fun item : nat * (Z * FeatureCreate) => item.2.1)
    <$> imap (fun i item => ((n + i)%nat, item)) (zip new_ids features)
  = new_ids.
Proof.
  intros Hlen. rewrite fmap_imap.
  rewrite (imap_ext _ (const fst)) by done.
  rewrite imap_const. apply fst_zip. lia.
Qed.

(** X8. A valid bulk creation under fresh, distinct ids, one for each
    feature, stores the feature at position [k] of the array as pending
    with priority [start + k], where [start] is above every priority of
    the table (1 on an empty table); it answers with the number of
    features and leaves every other row as it was. *)
Theorem create_features_bulk_block (new_ids : list Z)
    (features : list FeatureCreate) (db : gmap Z Feature) :
  valid_FeatureBulkCreate features = true ->
  length new_ids = length features ->
  NoDup new_ids ->
  (forall id, id ∈ new_ids -> db !! id = None) ->
  let db' := (create_features_bulk new_ids features db).1 in
  exists start,
    (forall id f, db !! id = Some f -> priority f < start) /\
    (db = ∅ -> start = 1) /\
    (create_features_bulk new_ids features db).2
      = Ok (Z.of_nat (length features)) /\
    (forall k id c, new_ids !! k = Some id -> features !! k = Some c ->
       db' !! id = Some (created_row (start + Z.of_nat k) c)) /\
    (forall id f, db !! id = Some f -> db' !! id = Some f).
Proof.
  intros Hvalid Hlen Hdup Hfresh db'. subst db'.
  rewrite create_features_bulk_table by done. simpl.
  destruct (next_priority_above db) as (Habove & Hempty & _). simpl in *.
  exists (next_priority_of (query_max_priority db)).
  repeat split; try done.
  - rewrite length_zip. do 2 f_equal. lia.
  - intros k id c Hid Hc.
    set (row_of := fun item : nat * (Z * FeatureCreate) =>
           created_row (next_priority_of (query_max_priority db)
                        + Z.of_nat item.1) item.2.2).
    apply (foldl_put_item row_of _ db (k, (id, c))).
    + by rewrite (imap_pair_ids 0).
    + apply elem_of_lookup_imap. exists k, (id, c). split; [done|].
      by apply lookup_zip_Some.
  - intros id f Hf. rewrite foldl_put_other; [done|].
    rewrite (imap_pair_ids 0) by done. intros Hin.
    apply Hfresh in Hin. congruence.
Qed.

(** The one-by-one creation midway: the next priority is [start + n]. *)
Lemma create_one_by_one_from (start : Z) (n : nat)
    (items : list (Z * FeatureCreate)) (db : gmap Z Feature) :
  (forall item, item ∈ items -> valid_FeatureCreate item.2 = true) ->
  next_priority_of (query_max_priority db) = start + Z.of_nat n ->
  foldl (fun db item => (create_feature item.1 item.2 db).1) db items
  = foldl (fun db item =>
             <[item.2.1 := created_row (start + Z.of_nat item.1) item.2.2]> db)
          db (imap (fun i item => ((n + i)%nat, item)) items).
Proof.
  revert n db. induction items as [|[id c] items IH]; intros n db Hvalid Hnext;
    [done|].
  rewrite imap_cons. simpl.
  rewrite (imap_ext (_ ∘ S) (fun i item => ((S n + i)%nat, item)))
    by (intros; simpl; f_equal; lia).
  assert (valid_FeatureCreate c = true) as Hc by (apply (Hvalid (id, c)); left).
  unfold create_feature at 2. rewrite Hc. simpl. rewrite Hnext.
  rewrite Nat.add_0_r.
  change (mkFeature (start + Z.of_nat n) (c_category c) (c_name c)
            (c_description c) (c_steps c) false)
    with (created_row (start + Z.of_nat n) c).
  apply (IH (S n)).
  - intros item Hitem. apply Hvalid. by right.
  - rewrite next_priority_insert; [simpl; lia|].
    intros id' f Hf. simpl.
    destruct (next_priority_above db) as (Habove & _). simpl in Habove.
    specialize (Habove id' f Hf). lia.
Qed.

(** X9. A valid bulk creation, with one id for each feature, commits the
    table that creating the features one by one, in the order of the array
    and under the same ids, ends with. *)
Theorem create_features_bulk_one_by_one (new_ids : list Z)
    (features : list FeatureCreate) (db : gmap Z Feature) :
  valid_FeatureBulkCreate features = true ->
  length new_ids = length features ->
  (create_features_bulk new_ids features db).1
  = create_one_by_one new_ids features db.
Proof.
  intros Hvalid _. rewrite create_features_bulk_table by done. simpl.
  unfold create_one_by_one. symmetry.
  apply (create_one_by_one_from _ 0).
  - intros [id c] Hitem. simpl.
    apply valid_FeatureBulkCreate_inv in Hvalid as [_ Hall]. apply Hall.
    apply elem_of_zip_r in Hitem. done.
  - simpl. lia.
Qed.

Lemma elem_of_passing_ids_of (db : gmap Z Feature) (id : Z) :
  id ∈ passing_ids_of db <-> exists f, db !! id = Some f /\ passes f = true.
Proof.
  unfold passing_ids_of, get_all_passing, get_all_passing_features. simpl.
  rewrite <- list_fmap_compose. rewrite list_elem_of_fmap. split.
  - intros ([i f] & -> & Hrow). simpl.
    rewrite order_by_priority_id_Permutation in Hrow.
    apply elem_of_filter_rows in Hrow as [Hp Hf]. by exists f.
  - intros (f & Hf & Hp). exists (id, f). split; [done|].
    rewrite order_by_priority_id_Permutation. by apply elem_of_filter_rows.
Qed.

Lemma st_passing_size (db : gmap Z Feature) :
  st_passing (get_stats db)
  = Z.of_nat (size (filter (fun row : Z * Feature => passes row.2 = true) db)).
Proof. unfold get_stats. simpl. by rewrite length_filter_rows. Qed.

Lemma st_total_size (db : gmap Z Feature) :
  st_total (get_stats db) = Z.of_nat (size db).
Proof. unfold get_stats, all_rows. simpl. by rewrite length_map_to_list. Qed.

(** X11. A status update changes the [passes] column of the addressed row
    and nothing else in the table; it answers with what [get_feature] then
    returns; sending it again changes nothing more, and sending the value
    the row already has leaves the table as it was. *)
Theorem update_feature_only_passes (id : Z) (v : bool) (db : gmap Z Feature)
    (f : Feature) :
  db !! id = Some f ->
  let db' := (update_feature id v db).1 in
  db' !! id = Some (mkFeature (priority f) (category f) (name f)
                      (description f) (steps f) v) /\
  (update_feature id v db).2 = get_feature id db' /\
  (forall id', id' <> id -> db' !! id' = db !! id') /\
  update_feature id v db' = (db', (update_feature id v db).2) /\
  (passes f = v -> db' = db).
Proof.
  intros Hf db'. subst db'. unfold update_feature, get_feature. rewrite Hf.
  simpl. rewrite !lookup_insert_eq. repeat split.
  - intros id' Hne. by rewrite lookup_insert_ne.
  - unfold set_passes. simpl. by rewrite insert_insert_eq.
  - intros <-. apply insert_id. rewrite Hf. by destruct f.
Qed.

Lemma update_feature_only_passes_witness :
  let db' := (update_feature 3 true table4).1 in
  db' !! 3 = Some (feature 2 "reset" true) /\
  (update_feature 3 true table4).2 = get_feature 3 db' /\
  (forall id', id' <> 3 -> db' !! id' = table4 !! id') /\
  update_feature 3 true db' = (db', (update_feature 3 true table4).2) /\
  (passes (feature 2 "reset" false) = true -> db' = table4).
Proof.
  exact (update_feature_only_passes 3 true table4 (feature 2 "reset" false)
           eq_refl).
Defined.

(** X12. Marking a pending feature as passing raises the passing count of
    the statistics by one and keeps the total; the feature is then on the
    all-passing list and is no longer handed out by next-feature. *)
Theorem update_feature_marks_passing (id : Z) (db : gmap Z Feature)
    (f : Feature) :
  db !! id = Some f -> passes f = false ->
  let db' := (update_feature id true db).1 in
  st_passing (get_stats db') = st_passing (get_stats db) + 1 /\
  st_total (get_stats db') = st_total (get_stats db) /\
  id ∈ passing_ids_of db' /\
  (forall r, get_next_feature db' = Ok r -> r_id r <> id).
Proof.
  intros Hf Hp db'. subst db'. unfold update_feature. rewrite Hf. cbn [fst].
  repeat split.
  - rewrite !st_passing_size. rewrite map_filter_insert_True by done.
    rewrite map_size_insert_None; [lia|].
    apply map_lookup_filter_None. right. intros g Hg. simpl. congruence.
  - rewrite !st_total_size. rewrite map_size_insert_Some; [done|by eexists].
  - apply elem_of_passing_ids_of. eexists. by rewrite lookup_insert_eq.
  - intros r Hr Hid.
    destruct (get_next_feature_cases (<[id:=set_passes true f]> db))
      as [[Hnone _]|(i & g & Hok & Hg & Hpg & _)]; [congruence|].
    rewrite Hok in Hr. injection Hr as <-. simpl in Hid. subst i.
    rewrite lookup_insert_eq in Hg. injection Hg as <-. done.
Qed.

Lemma update_feature_marks_passing_witness :
  let db' := (update_feature 3 true table4).1 in
  st_passing (get_stats db') = st_passing (get_stats table4) + 1 /\
  st_total (get_stats db') = st_total (get_stats table4) /\
  3 ∈ passing_ids_of db' /\
  (forall r, get_next_feature db' = Ok r -> r_id r <> 3).
Proof.
  exact (update_feature_marks_passing 3 table4 (feature 2 "reset" false)
           eq_refl eq_refl).
Defined.

(** X13. A deletion removes the addressed row and no other: the feature
    can no longer be read, every other row is as it was, priorities
    included, and the total of the statistics drops by one. *)
Theorem delete_feature_removes_one (id : Z) (db : gmap Z Feature)
    (f : Feature) :
  db !! id = Some f ->
  let db' := (delete_feature id db).1 in
  (delete_feature id db).2 = Ok () /\
  get_feature id db' = Raise not_found /\
  (forall id', id' <> id -> db' !! id' = db !! id') /\
  st_total (get_stats db') = st_total (get_stats db) - 1.
Proof.
  intros Hf db'. subst db'. unfold delete_feature, get_feature. rewrite Hf.
  cbn [fst snd]. rewrite lookup_delete_eq. repeat split.
  - intros id' Hne. by rewrite lookup_delete_ne.
  - rewrite !st_total_size. rewrite map_size_delete_Some by (by eexists).
    assert (size db <> 0%nat); [|lia].
    intros Hz. apply map_size_empty_inv in Hz. subst db.
    by rewrite lookup_empty in Hf.
Qed.

Lemma delete_feature_removes_one_witness :
  let db' := (delete_feature 3 table4).1 in
  (delete_feature 3 table4).2 = Ok () /\
  get_feature 3 db' = Raise not_found /\
  (forall id', id' <> 3 -> db' !! id' = table4 !! id') /\
  st_total (get_stats db') = st_total (get_stats table4) - 1.
Proof.
  exact (delete_feature_removes_one 3 table4 (feature 2 "reset" false)
           eq_refl).
Defined.

(** X14. Deleting a feature right after a valid creation under a fresh id
    gives back the table as it was before the creation. *)
Theorem create_then_delete_restores (new_id : Z) (c : FeatureCreate)
    (db : gmap Z Feature) :
  valid_FeatureCreate c = true -> db !! new_id = None ->
  delete_feature new_id (create_feature new_id c db).1 = (db, Ok ()).
Proof.
  intros Hvalid Hfresh. unfold create_feature. rewrite Hvalid. simpl.
  unfold delete_feature. rewrite lookup_insert_eq.
  by rewrite delete_insert_id.
Qed.

Lemma create_then_delete_restores_witness :
  delete_feature 9 (create_feature 9 (new_feature "search") table4).1
  = (table4, Ok ()).
Proof.
  exact (create_then_delete_restores 9 (new_feature "search") table4
           eq_refl eq_refl).
Defined.

(** X15. A request that is refused, for an unknown id, a skip of a passing
    feature or a body outside its bounds, leaves the table as it was, and
    a request for an id that is not in the table is always refused with
    the 404. *)
Theorem refused_request_changes_nothing (id : Z) (v : bool)
    (c : FeatureCreate) (ids : list Z) (cs : list FeatureCreate)
    (db : gmap Z Feature) :
  (forall e, (create_feature id c db).2 = Raise e ->
     (create_feature id c db).1 = db) /\
  (forall e, (create_features_bulk ids cs db).2 = Raise e ->
     (create_features_bulk ids cs db).1 = db) /\
  (forall e, (update_feature id v db).2 = Raise e ->
     (update_feature id v db).1 = db) /\
  (forall e, (skip_feature id db).2 = Raise e -> (skip_feature id db).1 = db) /\
  (forall e, (delete_feature id db).2 = Raise e ->
     (delete_feature id db).1 = db) /\
  (db !! id = None ->
     get_feature id db = Raise not_found /\
     (update_feature id v db).2 = Raise not_found /\
     (skip_feature id db).2 = Raise not_found /\
     (delete_feature id db).2 = Raise not_found).
Proof.
  repeat split.
  - unfold create_feature. by destruct (valid_FeatureCreate c).
  - destruct (valid_FeatureBulkCreate cs) eqn:Hvalid.
    + by rewrite create_features_bulk_table.
    + unfold create_features_bulk. by rewrite Hvalid.
  - unfold update_feature. by destruct (db !! id).
  - unfold skip_feature. destruct (db !! id) as [f|]; [|done].
    by destruct (passes f).
  - unfold delete_feature. by destruct (db !! id).
  - unfold get_feature. by destruct (db !! id).
  - unfold update_feature. by destruct (db !! id).
  - unfold skip_feature. by destruct (db !! id).
  - unfold delete_feature. by destruct (db !! id).
Qed.

Lemma skip_feature_table (id : Z) (db : gmap Z Feature) (f : Feature) :
  db !! id = Some f -> passes f = false ->
  (skip_feature id db).1
  = <[id := set_priority (next_priority_of (query_max_priority db)) f]> db.
Proof. intros Hf Hp. unfold skip_feature. by rewrite Hf, Hp. Qed.

(** X16. After a pending feature is skipped, next-feature hands out the
    first of the other pending features, the one it would hand out were the
    skipped feature not in the table; the skipped feature is handed out
    again only when it is the only pending one. *)
Theorem skip_feature_then_next (id : Z) (db : gmap Z Feature) (f : Feature) :
  db !! id = Some f -> passes f = false ->
  let db' := (skip_feature id db).1 in
  ((exists id', id' <> id /\ pending db id') ->
   exists r, get_next_feature db' = Ok r /\ r_id r <> id /\
             get_next_feature (delete id db) = Ok r) /\
  ((forall id', pending db id' -> id' = id) ->
   exists r, get_next_feature db' = Ok r /\ r_id r = id).
Proof.
  intros Hf Hp db'. subst db'. rewrite (skip_feature_table id db f) by done.
  destruct (next_priority_above db) as (Habove & _ & _). simpl in Habove.
  set (p := next_priority_of (query_max_priority db)) in *.
  split.
  - intros (id' & Hne & f' & Hf' & Hp').
    destruct (get_next_feature_cases (delete id db))
      as [[_ Hall]|(i & g & Hok & Hg & Hpg & Hmin)].
    { specialize (Hall id' f'). rewrite lookup_delete_ne in Hall by done.
      specialize (Hall Hf'). congruence. }
    apply lookup_delete_Some in Hg as [Hi Hg].
    exists (to_dict (i, g)). repeat split; [|by simpl|done].
    apply (get_next_feature_is _ i g); [by rewrite lookup_insert_ne|done|].
    intros j h Hh Hph. destruct (decide (j = id)) as [->|Hj].
    + rewrite lookup_insert_eq in Hh. injection Hh as <-.
      left. simpl. by apply (Habove i g).
    + rewrite lookup_insert_ne in Hh by done. apply Hmin; [|done].
      by rewrite lookup_delete_ne.
  - intros Honly. exists (to_dict (id, set_priority p f)). split; [|done].
    apply (get_next_feature_is _ id (set_priority p f));
      [by rewrite lookup_insert_eq|done|].
    intros j h Hh Hph. destruct (decide (j = id)) as [->|Hj].
    + rewrite lookup_insert_eq in Hh. injection Hh as <-.
      right. simpl. lia.
    + rewrite lookup_insert_ne in Hh by done.
      destruct Hj. apply Honly. by exists h.
Qed.

Lemma skip_feature_then_next_witness :
  let db' := (skip_feature 3 table4).1 in
  ((exists id', id' <> 3 /\ pending table4 id') ->
   exists r, get_next_feature db' = Ok r /\ r_id r <> 3 /\
             get_next_feature (delete 3 table4) = Ok r) /\
  ((forall id', pending table4 id' -> id' = 3) ->
   exists r, get_next_feature db' = Ok r /\ r_id r = 3).
Proof.
  exact (skip_feature_then_next 3 table4 (feature 2 "reset" false)
           eq_refl eq_refl).
Defined.

(** After the skip of feature 3 of [table4], feature 4 is handed out. *)
Example skip_feature_then_next_table4 :
  r_id <$> (match get_next_feature (skip_feature 3 table4).1 with
            | Ok r => Some r | Raise _ => None end) = Some 4.
Proof. reflexivity. Qed.

(** Tables with the same passing rows give the same all-passing answer and
    the same passing count. *)
Lemma passing_view_ext (db1 db2 : gmap Z Feature) :
  filter (fun row : Z * Feature => passes row.2 = true) db1
  = filter (fun row : Z * Feature => passes row.2 = true) db2 ->
  get_all_passing db1 = get_all_passing db2 /\
  st_passing (get_stats db1) = st_passing (get_stats db2).
Proof.
  intros Heq. split; [|by rewrite !st_passing_size, Heq].
  assert (forall db : gmap Z Feature,
            filter (fun row => passes row.2 = true) (all_rows db)
            ≡ₚ map_to_list
                 (filter (fun row : Z * Feature => passes row.2 = true) db))
    as Hview.
  { intros db. rewrite map_filter_alt. symmetry.
    apply map_to_list_to_map, filter_rows_NoDup_ids. }
  assert (get_all_passing_features db1 = get_all_passing_features db2) as Hrows.
  { unfold get_all_passing_features. apply order_by_priority_id_unique.
    - apply filter_rows_NoDup_ids.
    - by rewrite !Hview, Heq. }
  unfold get_all_passing. by rewrite Hrows.
Qed.

(** X17. Skipping a pending feature changes neither the all-passing answer
    nor the statistics: what the progress engine reads from the API is the
    same before and after. *)
Theorem skip_feature_keeps_progress_view (id : Z) (db : gmap Z Feature)
    (f : Feature) :
  db !! id = Some f -> passes f = false ->
  get_all_passing (skip_feature id db).1 = get_all_passing db /\
  get_stats (skip_feature id db).1 = get_stats db.
Proof.
  intros Hf Hp. rewrite (skip_feature_table id db f) by done.
  set (p := next_priority_of (query_max_priority db)).
  destruct (passing_view_ext (<[id := set_priority p f]> db) db)
    as [Hall Hpassing].
  { apply map_filter_insert_not'; simpl; [congruence|].
    intros g Hg. congruence. }
  split; [done|].
  pose proof (st_total_size (<[id := set_priority p f]> db)) as Htotal.
  rewrite map_size_insert_Some, <- st_total_size in Htotal by (by eexists).
  unfold get_stats in *. simpl in *. by rewrite Hpassing, Htotal.
Qed.

Lemma skip_feature_keeps_progress_view_witness :
  get_all_passing (skip_feature 3 table4).1 = get_all_passing table4 /\
  get_stats (skip_feature 3 table4).1 = get_stats table4.
Proof.
  exact (skip_feature_keeps_progress_view 3 table4 (feature 2 "reset" false)
           eq_refl eq_refl).
Defined.

Lemma list_features_page_contents_witness :
  exists page,
    list_features (Some 2) None (Some false) None false [] table4 = Ok page /\
    (forall r, r ∈ features page ->
       exists f, table4 !! r_id r = Some f /\ r = to_dict (r_id r, f) /\
                 matches (Some false) None f) /\
    NoDup (r_id <$> features page) /\
    Routes.total page =
      Z.of_nat (size (filter (fun row : Z * Feature =>
                                matches (Some false) None row.2) table4)) /\
    (false = false -> StronglySorted by_priority_id (features page)).
Proof.
  eexists. split; [reflexivity|].
  apply (list_features_page_contents (Some 2) None (Some false) None false []
           table4).
  reflexivity.
Defined.

Lemma create_features_bulk_block_witness :
  let ids := [8; 9] in
  let cs := [new_feature "search"; new_feature "share"] in
  let db' := (create_features_bulk ids cs table4).1 in
  exists start,
    (forall id f, table4 !! id = Some f -> priority f < start) /\
    (table4 = ∅ -> start = 1) /\
    (create_features_bulk ids cs table4).2 = Ok (Z.of_nat (length cs)) /\
    (forall k id c, ids !! k = Some id -> cs !! k = Some c ->
       db' !! id = Some (created_row (start + Z.of_nat k) c)) /\
    (forall id f, table4 !! id = Some f -> db' !! id = Some f).
Proof.
  intros ids cs.
  apply (create_features_bulk_block ids cs table4);
    [reflexivity | reflexivity | compute_done |].
  intros id Hid. apply list_elem_of_In in Hid. simpl in Hid.
  destruct Hid as [<-|[<-|[]]]; reflexivity.
Defined.

(** The two features of the witness get priorities 4 and 5. *)
Example create_features_bulk_table4 :
  (fun id => priority <$>
     (create_features_bulk [8; 9]
        [new_feature "search"; new_feature "share"] table4).1 !! id)
    <$> [8; 9]
  = [Some 4; Some 5].
Proof. reflexivity. Qed.

Lemma create_features_bulk_one_by_one_witness :
  (create_features_bulk [8; 9]
     [new_feature "search"; new_feature "share"] table4).1
  = create_one_by_one [8; 9] [new_feature "search"; new_feature "share"]
      table4.
Proof.
  exact (create_features_bulk_one_by_one [8; 9]
           [new_feature "search"; new_feature "share"] table4 eq_refl eq_refl).
Defined.

End QueueLaws.

(** ** Further properties of the progress engine *)
Module EngineLaws.
Import Routes Progress Handlers Samples Terms Wiring ProgressSpec.

(** X18. A call sends a request exactly when a webhook URL is configured
    and the passing count is above the count read from the cache; it never
    sends more than one, and never touches the requests sent before. *)
Theorem request_sent_iff_increase (env : Env) (passing total : Z)
    (project : string) (w : World) :
  let w' := send_progress_webhook env passing total project w in
  (delivery_attempted w w' <->
   webhook_configured env = true /\ passing > (read_cache (cache_file w)).1) /\
  exists sent, requests w' = requests w ++ sent /\ (length sent <= 1)%nat.
Proof.
  intros w'. subst w'. split.
  - split; [apply delivery_attempted_inv|]. intros [Hconf Hgt].
    apply webhook_configured_url in Hconf as (url & Hurl & Hne).
    rewrite (send_progress_webhook_increase env passing total project w url)
      by done.
    unfold delivery_attempted. simpl. intros Heq.
    apply (f_equal length) in Heq. rewrite length_app in Heq. simpl in Heq. lia.
  - destruct (webhook_configured env) eqn:Hconf.
    + destruct (decide (passing > (read_cache (cache_file w)).1)) as [Hgt|Hle].
      * destruct (webhook_configured_url env Hconf) as (url & Hurl & Hne).
        rewrite (send_progress_webhook_increase env passing total project w url)
          by done.
        eexists. split; [done|]. simpl. lia.
      * rewrite send_progress_webhook_no_increase by (done || lia).
        exists []. rewrite app_nil_r. split; [|simpl; lia].
        by destruct (cache_file w).
    + rewrite send_progress_webhook_not_configured by done.
      exists []. rewrite app_nil_r. split; [done|simpl; lia].
Qed.

(** After a configured run the cache file exists and its count is at least
    the passing count of the run. *)
Lemma cache_after_run (env : Env) (passing total : Z) (project : string)
    (w : World) :
  webhook_configured env = true ->
  let w' := send_progress_webhook env passing total project w in
  is_Some (cache_file w') /\ passing <= (read_cache (cache_file w')).1.
Proof.
  intros Hconf w'. subst w'.
  destruct (decide (passing > (read_cache (cache_file w)).1)) as [Hgt|Hle].
  - destruct (webhook_configured_url env Hconf) as (url & Hurl & Hne).
    rewrite (send_progress_webhook_increase env passing total project w url)
      by done.
    simpl. split; [by eexists|lia].
  - rewrite send_progress_webhook_no_increase by (done || lia).
    destruct (cache_file w) as [c|] eqn:Hfile.
    + rewrite Hfile. split; [by eexists|lia].
    + simpl. split; [by eexists|lia].
Qed.

(** X19. Once the engine has run with a passing count, a later run with
    the same or a smaller count changes nothing: no request, no cache
    write, no output, whatever the API and the webhook would answer. In
    particular a second run with no status change is silent, and so is a
    run after features fell back and passed again. *)
Theorem later_run_without_increase_is_silent (env env2 : Env)
    (passing total passing2 total2 : Z) (project project2 : string)
    (w : World) :
  webhook_configured env = true ->
  passing2 <= passing ->
  let w' := send_progress_webhook env passing total project w in
  send_progress_webhook env2 passing2 total2 project2 w' = w'.
Proof.
  intros Hconf Hle w'.
  destruct (cache_after_run env passing total project w Hconf)
    as [[c Hc] Hcount].
  fold w' in Hc, Hcount.
  destruct (webhook_configured env2) eqn:Hconf2.
  - rewrite send_progress_webhook_no_increase by (done || lia).
    by rewrite Hc.
  - by apply send_progress_webhook_not_configured.
Qed.

Lemma later_run_without_increase_is_silent_witness :
  let env := env_of hook 4 6
               (inr [summary 1 "log in"; summary 2 "log out";
                     summary 3 "reset"; summary 5 "sign up"]) None in
  let env2 := env_of hook 3 6
                (inr [summary 1 "log in"; summary 2 "log out";
                      summary 7 "search"]) None in
  let w' := send_progress_webhook env 4 6 "shop"
              (world_of (Some (CacheData (Some 2) (Some [1; 2])))) in
  send_progress_webhook env2 3 6 "shop" w' = w'.
Proof.
  intros env env2.
  apply (later_run_without_increase_is_silent env env2 4 6 3 6 "shop" "shop");
    [reflexivity | lia].
Defined.

(** X20. The count kept in the cache never goes down, and a cache file
    that exists is never removed: with a passing count that is not
    negative, the count read from the cache after a call is at least the
    count read before it. *)
Theorem snapshot_count_never_drops (env : Env) (passing total : Z)
    (project : string) (w : World) :
  0 <= passing ->
  let w' := send_progress_webhook env passing total project w in
  (read_cache (cache_file w)).1 <= (read_cache (cache_file w')).1 /\
  (is_Some (cache_file w) -> is_Some (cache_file w')).
Proof.
  intros Hpos w'. subst w'.
  destruct (webhook_configured env) eqn:Hconf.
  - destruct (decide (passing > (read_cache (cache_file w)).1)) as [Hgt|Hle].
    + destruct (webhook_configured_url env Hconf) as (url & Hurl & Hne).
      rewrite (send_progress_webhook_increase env passing total project w url)
        by done.
      simpl. split; [lia|by eexists].
    + rewrite send_progress_webhook_no_increase by (done || lia).
      destruct (cache_file w) as [c|] eqn:Hfile.
      * by rewrite Hfile.
      * simpl. split; [lia|by eexists].
  - by rewrite send_progress_webhook_not_configured.
Qed.

Lemma snapshot_count_never_drops_witness :
  let env := env_of hook 1 6 (inr [summary 1 "log in"]) None in
  let w := world_of (Some (CacheData (Some 2) (Some [1; 2]))) in
  let w' := send_progress_webhook env 1 6 "shop" w in
  (read_cache (cache_file w)).1 <= (read_cache (cache_file w')).1 /\
  (is_Some (cache_file w) -> is_Some (cache_file w')).
Proof.
  intros env w.
  apply (snapshot_count_never_drops env 1 6 "shop" w). lia.
Defined.

(** X21. When the statistics call fails, or reports no feature at all,
    [print_progress_summary] does not run the engine: the cache file and
    the requests are as before, and the output says that there are no
    features yet. *)
Theorem no_statistics_no_cycle (env : Env) (project : string) (w : World) :
  (forall passing total, api_stats env = inr (passing, total) -> total <= 0) ->
  let w' := print_progress_summary env project w in
  cache_file w' = cache_file w /\
  requests w' = requests w /\
  exists lines, stdout w' = stdout w ++ lines ++ [NoFeaturesYet].
Proof.
  intros Hstats w'. subst w'.
  unfold print_progress_summary, count_passing_tests.
  destruct (api_stats env) as [e|[passing total]].
  - rewrite bool_decide_eq_false_2 by lia. simpl. repeat split.
    exists [ApiUnavailableInCount e]. by rewrite <- app_assoc.
  - specialize (Hstats passing total eq_refl).
    rewrite bool_decide_eq_false_2 by lia. simpl. repeat split.
    by exists [].
Qed.

Lemma no_statistics_no_cycle_witness :
  let env := mkEnv hook (inl "connection refused")
               (inr [summary 1 "log in"]) None "2024-05-01T10:00:00" in
  let w := world_of (Some (CacheData (Some 0) (Some []))) in
  let w' := print_progress_summary env "shop" w in
  cache_file w' = cache_file w /\
  requests w' = requests w /\
  exists lines, stdout w' = stdout w ++ lines ++ [NoFeaturesYet].
Proof.
  intros env w.
  apply (no_statistics_no_cycle env "shop" w).
  intros passing total Hstats. discriminate Hstats.
Defined.

(** X22. A cycle whose fetch of the passing features fails leaves a cache
    without ids; when the passing count was positive, the next cycle that
    finds an increase takes that cache for the old format and names no
    feature, although its own fetch succeeds. *)
Theorem fetch_failure_then_anonymous (env env2 : Env)
    (passing total passing2 total2 : Z) (project project2 : string)
    (w : World) (e : string) :
  webhook_configured env = true ->
  api_all_passing env = inl e ->
  passing > (read_cache (cache_file w)).1 ->
  passing > 0 ->
  webhook_configured env2 = true ->
  passing2 > passing ->
  let w1 := send_progress_webhook env passing total project w in
  let w2 := send_progress_webhook env2 passing2 total2 project2 w1 in
  cache_file w1 = Some (CacheData (Some passing) (Some [])) /\
  exists url payload,
    requests w2 = requests w1 ++ [(url, [payload])] /\
    completed_tests payload = [] /\
    tests_completed_this_session payload = passing2 - passing /\
    cache_file w2 = Some (CacheData (Some passing2) (Some (current_ids env2))).
Proof.
  intros Hconf Hapi Hgt Hpos Hconf2 Hgt2 w1 w2.
  assert (cache_file w1 = Some (CacheData (Some passing) (Some []))) as Hw1.
  { subst w1.
    destruct (webhook_configured_url env Hconf) as (url & Hurl & Hne).
    rewrite (send_progress_webhook_increase env passing total project w url)
      by done.
    simpl. unfold current_ids, fetched. by rewrite Hapi. }
  split; [done|]. subst w2.
  destruct (webhook_configured_url env2 Hconf2) as (url & Hurl & Hne).
  rewrite (send_progress_webhook_increase env2 passing2 total2 project2 w1 url)
    by (by rewrite ?Hw1).
  exists url, (payload_of env2 passing2 total2 project2 (cache_file w1)).
  simpl. rewrite Hw1. repeat split.
  by rewrite (proj2 (is_old_cache_format_spec (Some passing) (Some []))).
Qed.

Lemma fetch_failure_then_anonymous_witness :
  let env := env_of hook 3 6 (inl "timed out") None in
  let env2 := env_of hook 4 6
                (inr [summary 1 "log in"; summary 2 "log out";
                      summary 3 "reset"; summary 5 "sign up"]) None in
  let w := world_of (Some (CacheData (Some 2) (Some [1; 2]))) in
  let w1 := send_progress_webhook env 3 6 "shop" w in
  let w2 := send_progress_webhook env2 4 6 "shop" w1 in
  cache_file w1 = Some (CacheData (Some 3) (Some [])) /\
  exists url payload,
    requests w2 = requests w1 ++ [(url, [payload])] /\
    completed_tests payload = [] /\
    tests_completed_this_session payload = 4 - 3 /\
    cache_file w2 = Some (CacheData (Some 4) (Some (current_ids env2))).
Proof.
  intros env env2 w.
  apply (fetch_failure_then_anonymous env env2 3 6 4 6 "shop" "shop" w
           "timed out");
    [reflexivity | reflexivity | vm_compute; reflexivity | lia
    | reflexivity | lia].
Defined.

Lemma filter_fmap_comm {A B} (g : A -> B) (P : B -> Prop)
    `{!forall y, Decision (P y)} (l : list A) :
  filter P (g <$> l) = g <$> filter (fun x => P (g x)) l.
Proof.
  induction l as [|x l IH]; [done|]. rewrite fmap_cons, !filter_cons.
  destruct (decide (P (g x))); by rewrite IH.
Qed.

Lemma passing_ids_of_length (db : gmap Z Feature) :
  st_passing (get_stats db) = Z.of_nat (length (passing_ids_of db)).
Proof.
  unfold passing_ids_of, get_all_passing, get_stats, get_all_passing_features.
  simpl. rewrite !length_fmap. f_equal. symmetry.
  apply Permutation_length, merge_sort_Permutation.
Qed.

(** X23. The engine fed by the API. With the snapshot the engine wrote
    from a table [db1] in the cache, and the statistics and the passing
    features served from a table [db2] that has more passing features, a
    cycle names exactly the features passing in [db2] whose id is not
    passing in [db1], in the order of the queue, by category and name,
    reports the difference of the two passing counts, and writes the
    snapshot of [db2]; a snapshot written from a table is never taken for
    the old format. *)
Theorem cycle_between_tables (db1 db2 : gmap Z Feature) (url : string)
    (err : option string) (now project : string) (w : World) :
  url <> EmptyString ->
  cache_file w = Some (snapshot_of db1) ->
  st_passing (get_stats db2) > st_passing (get_stats db1) ->
  let env := served_by db2 (Some url) err now in
  let w' := send_progress_webhook env (st_passing (get_stats db2))
              (st_total (get_stats db2)) project w in
  is_old_cache_format (Some (snapshot_of db1)) = false /\
  (exists payload,
     requests w' = requests w ++ [(url, [payload])] /\
     completed_tests payload =
       (fun s => describe (as_passing_feature s))
         <$> filter (fun s => ps_id s ∉ passing_ids_of db1)
                    (ap_features (get_all_passing db2)) /\
     tests_completed_this_session payload
       = st_passing (get_stats db2) - st_passing (get_stats db1)) /\
  cache_file w' = Some (snapshot_of db2).
Proof.
  intros Hne Hfile Hgt env w'. subst w'.
  assert (is_old_cache_format (Some (snapshot_of db1)) = false) as Hfresh.
  { destruct (is_old_cache_format _) eqn:Hold; [|done].
    apply is_old_cache_format_spec in Hold as [Hids Hcount].
    change (passing_ids_of db1 = []) in Hids.
    change (st_passing (get_stats db1) > 0) in Hcount.
    rewrite passing_ids_of_length, Hids in Hcount. simpl in Hcount. lia. }
  split; [done|].
  rewrite (send_progress_webhook_increase env _ _ project w url)
    by (by rewrite ?Hfile).
  simpl. rewrite Hfile. split.
  - eexists. split; [done|]. simpl. split; [|done].
    rewrite Hfresh. unfold fetched. simpl.
    rewrite filter_fmap_comm, <- list_fmap_compose. f_equal.
    apply list_filter_iff. intros s. simpl.
    by rewrite elem_of_list_to_set.
  - unfold snapshot_of, current_ids, fetched, passing_ids_of. simpl.
    by rewrite <- list_fmap_compose.
Qed.

Lemma cycle_between_tables_witness :
  let db2 := (update_feature 3 true table4).1 in
  let env := served_by db2 hook None "2024-05-01T10:00:00" in
  let w := world_of (Some (snapshot_of table4)) in
  let w' := send_progress_webhook env (st_passing (get_stats db2))
              (st_total (get_stats db2)) "shop" w in
  is_old_cache_format (Some (snapshot_of table4)) = false /\
  (exists payload,
     requests w' = requests w
       ++ [("http://localhost:5678/webhook/progress", [payload])] /\
     completed_tests payload =
       (fun s => describe (as_passing_feature s))
         <$> filter (fun s => ps_id s ∉ passing_ids_of table4)
                    (ap_features (get_all_passing db2)) /\
     tests_completed_this_session payload
       = st_passing (get_stats db2) - st_passing (get_stats table4)) /\
  cache_file w' = Some (snapshot_of db2).
Proof.
  intros db2 env w.
  apply (cycle_between_tables table4 db2
           "http://localhost:5678/webhook/progress" None
           "2024-05-01T10:00:00" "shop" w);
    [discriminate | reflexivity | vm_compute; reflexivity].
Defined.

(** Marking feature 3 of [table4] as passing makes the engine name it. *)
Example cycle_between_tables_table4 :
  let db2 := (update_feature 3 true table4).1 in
  let w' := send_progress_webhook
              (served_by db2 hook None "2024-05-01T10:00:00")
              (st_passing (get_stats db2)) (st_total (get_stats db2)) "shop"
              (world_of (Some (snapshot_of table4))) in
  (completed_tests <$> ((requests w').*2 ≫= id)) = [["auth reset"]].
Proof. reflexivity. Qed.

End EngineLaws.
